(** * Q47 prime constellations: a shallow embedding of the verification scripts

    The development follows [verify_quadruplets.py] and
    [scripts/compute_bateman_horn.py].  Python's unbounded [int] is [Z],
    [%] and [//] with a positive divisor are [Z.modulo] and [Z.div] (both
    floor), exceptions are the [Raise] outcome of [result], the process-wide
    random generator is an explicit stream threaded through the calls, and
    [float] is the kernel's binary64. *)

From Stdlib Require Import ZArith List Bool Lia Znumtheory Zcong Sorted.
From Stdlib Require Import Zmod.ZmodInv.
From Stdlib Require Import Floats.
From Stdlib Require DecimalString String.
Import ListNotations.

Local Open Scope Z_scope.

(** ** Outcomes of a Python computation *)

Inductive exn : Type :=
| IndexError
| ValueError
| ZeroDivisionError
| OverflowError
| FuelExhausted.   (* a [while] loop that did not finish within the model's fuel *)

Inductive result (A : Type) : Type :=
| Ok (a : A)
| Raise (e : exn).

Arguments Ok {A} a.
Arguments Raise {A} e.

Definition bind {A B : Type} (m : result A) (k : A -> result B) : result B :=
  match m with
  | Ok a => k a
  | Raise e => Raise e
  end.

Notation "x <- m ;; k" := (bind m (fun x => k))
  (at level 61, m at next level, right associativity).
Notation "' p <- m ;; k" := (bind m (fun x => let p := x in k))
  (at level 61, p pattern, m at next level, right associativity).

Definition value_of {A B : Type} (m : result (A * B)) : result A :=
  match m with
  | Ok (a, _) => Ok a
  | Raise e => Raise e
  end.

(** ** Python builtins used by the scripts *)

(** [range(start, stop)] *)
Definition range (start stop : Z) : list Z :=
  map (fun i => start + Z.of_nat i) (seq 0 (Z.to_nat (stop - start))).

(** [range(start, stop, step)]: [ValueError] on a zero step. *)
Definition range3 (start stop step : Z) : result (list Z) :=
  if step =? 0 then Raise ValueError
  else
    let len :=
      if 0 <? step then (stop - start + step - 1) / step
      else (start - stop - step - 1) / (- step) in
    Ok (map (fun i => start + Z.of_nat i * step) (seq 0 (Z.to_nat len))).

(** [l[i]] and [l[i] = v]: a negative index counts from the end, anything
    still outside the list is an [IndexError]. *)
Definition norm_index {A : Type} (l : list A) (i : Z) : Z :=
  if i <? 0 then i + Z.of_nat (length l) else i.

Fixpoint set_nth {A : Type} (l : list A) (i : nat) (v : A) : list A :=
  match l, i with
  | [], _ => []
  | _ :: t, O => v :: t
  | h :: t, S i' => h :: set_nth t i' v
  end.

Definition list_get {A : Type} (l : list A) (i : Z) : result A :=
  let j := norm_index l i in
  if j <? 0 then Raise IndexError
  else match nth_error l (Z.to_nat j) with
       | Some v => Ok v
       | None => Raise IndexError
       end.

Definition list_set {A : Type} (l : list A) (i : Z) (v : A) : result (list A) :=
  let j := norm_index l i in
  if (0 <=? j) && (j <? Z.of_nat (length l)) then Ok (set_nth l (Z.to_nat j) v)
  else Raise IndexError.

(** [for x in xs: s = body(x, s)] with no early exit. *)
Fixpoint for_in {S : Type} (xs : list Z) (body : Z -> S -> result S) (s : S)
  : result S :=
  match xs with
  | [] => Ok s
  | x :: xs' => s' <- body x s ;; for_in xs' body s'
  end.

(** [[x for x in xs if p(x)]] *)
Fixpoint comprehension_if (xs : list Z) (p : Z -> result bool) : result (list Z) :=
  match xs with
  | [] => Ok []
  | x :: xs' =>
      b <- p x ;;
      rest <- comprehension_if xs' p ;;
      Ok (if b then x :: rest else rest)
  end.

(** Square-and-multiply, the exponent's bits taken from the most significant
    one down, reducing after every product. *)
Fixpoint pow_mod_pos (base : Z) (e : positive) (modulus : Z) : Z :=
  match e with
  | xH => base mod modulus
  | xO e' => let h := pow_mod_pos base e' modulus in (h * h) mod modulus
  | xI e' =>
      let h := pow_mod_pos base e' modulus in
      ((h * h) mod modulus * base) mod modulus
  end.

(** The three-argument builtin [pow(base, exp, mod)]: [ValueError] when the
    modulus is zero; the result takes the sign of the modulus; a negative
    exponent goes through the inverse of the base, [ValueError] when there is
    none. *)
Definition pow3 (base exp modulus : Z) : result Z :=
  if modulus =? 0 then Raise ValueError
  else
    match exp with
    | Z0 => Ok (1 mod modulus)
    | Zpos e => Ok (pow_mod_pos base e modulus)
    | Zneg e =>
        if Z.gcd base modulus =? 1
        then Ok (pow_mod_pos (Z.invmod base (Z.abs modulus)) e modulus)
        else Raise ValueError
    end.

(** [[v] * count]: the empty list for a count of zero or less, OverflowError
    for a count that does not fit the index type from below (less than
    [-2^63]).  A count of [2^63] or more asks for a list that cannot be
    allocated; that failure is not part of the model. *)
Definition list_repeat {A : Type} (v : A) (count : Z) : result (list A) :=
  if count <? - 2 ^ 63 then Raise OverflowError
  else Ok (repeat v (Z.to_nat count)).

(** The limit of the conversion from [int] to [str], in decimal digits. *)
Definition max_str_digits : Z := 4300.

(** [str(z)], and the digits of [z] under a format such as [{z:,}]:
    ValueError once [z] has more than [max_str_digits] digits. *)
Definition str_int (z : Z) : result String.string :=
  if 10 ^ max_str_digits <=? Z.abs z then Raise ValueError
  else Ok (DecimalString.NilZero.string_of_int (Z.to_int z)).

(** [len(str(q))] *)
Definition len_str (q : Z) : result Z :=
  s <- str_int q ;;
  Ok (Z.of_nat (String.length s)).

(** ** The random generator

    [random] is process-wide state in the scripts.  Here the generator is
    the stream of raw values it will still deliver; [randrange(start, stop)]
    consumes one and maps it into [[start, stop)], so every stream is a valid
    run and every run of in-range draws comes from some stream. *)

Definition rng : Type := nat -> Z.

Definition randrange (start stop : Z) (g : rng) : result (Z * rng) :=
  if stop <=? start then Raise ValueError
  else Ok (start + g O mod (stop - start), fun i => g (S i)).

(** ** verify_quadruplets.py *)

Definition Q (n : Z) : Z := n ^ 47 - (n - 1) ^ 47.

(** [while d % 2 == 0: r += 1; d //= 2] *)
Fixpoint halve_while_even (fuel : nat) (r d : Z) : result (Z * Z) :=
  match fuel with
  | O => Raise FuelExhausted
  | S fuel' =>
      if d mod 2 =? 0 then halve_while_even fuel' (r + 1) (d / 2)
      else Ok (r, d)
  end.

(** The inner [for _ in range(r - 1)] with its [else]: [true] when the loop
    left through [break], [false] when it ran out and the [else] branch
    returns [False]. *)
Fixpoint square_loop (count : nat) (x n : Z) : result bool :=
  match count with
  | O => Ok false
  | S count' =>
      x' <- pow3 x 2 n ;;
      if x' =? n - 1 then Ok true else square_loop count' x' n
  end.

(** One witness trial with the drawn [a]: [true] when the round passes. *)
Definition witness_round (n r d a : Z) : result bool :=
  x <- pow3 a d n ;;
  if (x =? 1) || (x =? n - 1) then Ok true
  else square_loop (Z.to_nat (r - 1)) x n.

(** [for _ in range(k)]: draw, test, return [False] at the first failure. *)
Fixpoint witness_rounds (k : nat) (n r d : Z) (g : rng) : result (bool * rng) :=
  match k with
  | O => Ok (true, g)
  | S k' =>
      '(a, g1) <- randrange 2 (n - 1) g ;;
      passed <- witness_round n r d a ;;
      if passed then witness_rounds k' n r d g1 else Ok (false, g1)
  end.

Definition is_prime_miller_rabin (n k : Z) (g : rng) : result (bool * rng) :=
  if n <? 2 then Ok (false, g)
  else if (n =? 2) || (n =? 3) then Ok (true, g)
  else if n mod 2 =? 0 then Ok (false, g)
  else
    '(r, d) <- halve_while_even (S (Z.to_nat (Z.log2 (n - 1)))) 0 (n - 1) ;;
    witness_rounds (Z.to_nat k) n r d g.





(** The body of the loop of [verify_quadruplet] for the candidate [q]. *)
Definition test_candidate (q : Z) (g : rng) : result ((bool * Z) * rng) :=
  digits <- len_str q ;;
  '(is_prime, g') <- is_prime_miller_rabin q 25 g ;;
  Ok ((is_prime, digits), g').

Fixpoint quadruplet_loop (n : Z) (idxs : list Z) (results : list (bool * Z)) (g : rng)
  : result (list (bool * Z) * rng) :=
  match idxs with
  | [] => Ok (results, g)
  | i :: idxs' =>
      let q := Q (n + i) in
      '(r, g') <- test_candidate q g ;;
      quadruplet_loop n idxs' (results ++ [r]) g'
  end.

Definition verify_quadruplet (n : Z) (g : rng) : result ((bool * list Z) * rng) :=
  '(results, g') <- quadruplet_loop n (range 0 4) [] g ;;
  let all_prime := forallb fst results in
  let digit_counts := map snd results in
  Ok ((all_prime, digit_counts), g').

(** The values [verify_quadruplet n] hands to the primality tester, in order. *)
Definition quadruplet_candidates (n : Z) : list Z :=
  map (fun i => Q (n + i)) (range 0 4).

(** [enumerate(l, start)] *)
Definition enumerate {A : Type} (l : list A) (start : Z) : list (Z * A) :=
  combine (range start (start + Z.of_nat (length l))) l.

(** What [verify_all_quadruplets] prints: the heading, a rule, one row per
    quadruplet (its rank, its start, the digit count of the first value and
    the verdict), a rule and the summary. *)
Inductive quadruplet_event : Type :=
| QuadHeader
| QuadRule
| QuadRow (rank n digits : Z) (pass : bool)
| QuadAllPass
| QuadSomeFail.

(** [for i, n in enumerate(quadruplets, 1)] in [verify_all_quadruplets].  A
    row formats the rank, the start and a digit count; the start has fewer
    digits than Q of it, which [verify_quadruplet] has put through [str]
    already, so the row adds no conversion that can fail. *)
Fixpoint all_quadruplets_loop (items : list (Z * Z)) (all_valid : bool)
    (out : list quadruplet_event) (g : rng)
  : result ((bool * list quadruplet_event) * rng) :=
  match items with
  | [] => Ok ((all_valid, out), g)
  | (i, n) :: items' =>
      '((is_valid, digits), g') <- verify_quadruplet n g ;;
      first_digits <- list_get digits 0 ;;
      let out' := out ++ [QuadRow i n first_digits is_valid] in
      let all_valid' := if negb is_valid then false else all_valid in
      all_quadruplets_loop items' all_valid' out' g'
  end.

(** The body of [verify_all_quadruplets] over the list [qs] of starts. *)
Definition verify_quadruplets_over (qs : list Z) (g : rng)
  : result ((bool * list quadruplet_event) * rng) :=
  '((all_valid, out), g') <-
    all_quadruplets_loop (enumerate qs 1) true [QuadHeader; QuadRule] g ;;
  Ok ((all_valid,
       out ++ [QuadRule] ++ [if all_valid : bool then QuadAllPass else QuadSomeFail]),
      g').

Definition quadruplets : list Z :=
  [117309848; 136584738; 218787064; 411784485; 423600750;
   523331634; 640399031; 987980498; 1163461515; 1370439187;
   1643105964; 1691581855; 1975860550; 1996430175].

Definition verify_all_quadruplets (g : rng)
  : result ((bool * list quadruplet_event) * rng) :=
  verify_quadruplets_over quadruplets g.

(** ** scripts/compute_bateman_horn.py *)

(** [a % b] with a divisor that is not a literal. *)
Definition py_mod (a b : Z) : result Z :=
  if b =? 0 then Raise ZeroDivisionError else Ok (a mod b).

(** [int(n ** 0.5)].  The script takes the square root in double precision;
    for the bounds a table of [n + 1] booleans can be built for (below
    [2^52]) that is the integer square root, which is what the model takes. *)
Definition isqrt_float (n : Z) : Z := Z.sqrt n.

(** The body of the outer loop of [sieve_primes]:
    [if is_prime[i]: for j in range(i * i, n + 1, i): is_prime[j] = False]. *)
Definition mark_multiples (n i : Z) (is_prime : list bool) : result (list bool) :=
  marked <- list_get is_prime i ;;
  if marked : bool then
    js <- range3 (i * i) (n + 1) i ;;
    for_in js (fun j is_prime => list_set is_prime j false) is_prime
  else Ok is_prime.

Definition sieve_primes (n : Z) : result (list Z) :=
  is_prime <- list_repeat true (n + 1) ;;
  is_prime <- list_set is_prime 0 false ;;
  is_prime <- list_set is_prime 1 false ;;
  is_prime <- for_in (range 2 (isqrt_float n + 1)) (mark_multiples n) is_prime ;;
  comprehension_if (range 2 (n + 1)) (fun i => list_get is_prime i).

Definition omega_Q (p : Z) : Z :=
  if p =? 47 then 0
  else if (p - 1) mod 47 =? 0 then 46
  else 0.

(** [float(z)], rounded to nearest even. *)
Definition float_of_int (z : Z) : float :=
  SF2Prim (binary_normalize prec emax z 0 false).

(** [a / b] on two ints; both operands are exact doubles below [2^53], and
    the divisors of the script are primes, never zero. *)
Definition int_truediv (a b : Z) : float :=
  (float_of_int a / float_of_int b)%float.

Definition local_factor (w p : Z) : float :=
  ((1 - int_truediv w p) / (1 - int_truediv 1 p))%float.

Record series_state : Type := {
  C_Q : float;
  shielding_product : float;
  n_shielding : Z;
  n_splitting : Z
}.

(** The type column of a printed row. *)
Inductive ptype : Type := SPLIT | ramified | shield.

Record cq_row : Type := {
  row_p : Z;
  row_omega : Z;
  row_local_factor : float;
  row_C_Q : float;
  row_ptype : ptype
}.

Definition milestones (p_max : Z) : list Z := [283; 1000; 5000; 10000; 50000; p_max].

Definition ptype_of (w p : Z) : ptype :=
  if w =? 46 then SPLIT else if p =? 47 then ramified else shield.

(** The body of [for p in primes] in [compute_CQ]. *)
Definition accumulate (p_max : Z) (verbose : bool)
    (acc : series_state * list cq_row) (p : Z) : series_state * list cq_row :=
  let (st, rows) := acc in
  let w := omega_Q p in
  let lf := local_factor w p in
  let c := (C_Q st * lf)%float in
  let st' :=
    if w =? 0 then
      {| C_Q := c;
         shielding_product := (shielding_product st * lf)%float;
         n_shielding := n_shielding st + 1;
         n_splitting := n_splitting st |}
    else
      {| C_Q := c;
         shielding_product := shielding_product st;
         n_shielding := n_shielding st;
         n_splitting := n_splitting st + 1 |} in
  let rows' :=
    if verbose
       && ((p <=? 53) || existsb (Z.eqb p) (milestones p_max)
           || ((p <? 300) && ((p - 1) mod 47 =? 0)))
    then rows ++ [{| row_p := p; row_omega := w; row_local_factor := lf;
                     row_C_Q := c; row_ptype := ptype_of w p |}]
    else rows in
  (st', rows').

Definition initial_state : series_state :=
  {| C_Q := 1%float; shielding_product := 1%float;
     n_shielding := 0; n_splitting := 0 |}.

(** [compute_CQ] up to its [return]: the accumulator after the loop and the
    rows printed by it. *)
Definition compute_CQ_run (p_max : Z) (verbose : bool)
  : result (series_state * list cq_row) :=
  primes <- sieve_primes p_max ;;
  Ok (fold_left (accumulate p_max verbose) primes (initial_state, [])).

Definition compute_CQ (p_max : Z) (verbose : bool) : result float :=
  '(st, _) <- compute_CQ_run p_max verbose ;;
  Ok (C_Q st).

(** [sum(1 for n in range(p) if (pow(n, 47, p) - pow((n - 1) % p, 47, p)) % p == 0)] *)
Definition brute_count (p : Z) : result Z :=
  for_in (range 0 p)
    (fun n count =>
       a <- pow3 n 47 p ;;
       m <- py_mod (n - 1) p ;;
       b <- pow3 m 47 p ;;
       d <- py_mod (a - b) p ;;
       Ok (if d =? 0 then count + 1 else count))
    0.

Record omega_row : Type := {
  orow_p : Z;
  orow_theory : Z;
  orow_brute : Z;
  orow_match : bool
}.

Definition verify_omega_computationally (p_max : Z) : result (bool * list omega_row) :=
  primes <- sieve_primes p_max ;;
  for_in primes
    (fun p acc =>
       let '(all_match, rows) := acc in
       brute <- brute_count p ;;
       let theory := omega_Q p in
       let all_match' := if negb (brute =? theory) then false else all_match in
       let rows' :=
         if (p <=? 53) || ((p - 1) mod 47 =? 0) || negb (brute =? theory)
         then rows ++ [{| orow_p := p; orow_theory := theory; orow_brute := brute;
                          orow_match := brute =? theory |}]
         else rows in
       Ok (all_match', rows'))
    (true, []).

(** ** Definitions used to state the properties *)

(** The primality tester run over a list of candidates in order, collecting
    the results: what the loop of [verify_quadruplet] amounts to once the
    candidates are computed. *)
Fixpoint test_each (qs : list Z) (results : list (bool * Z)) (g : rng)
  : result (list (bool * Z) * rng) :=
  match qs with
  | [] => Ok (results, g)
  | q :: qs' =>
      '(r, g') <- test_candidate q g ;;
      test_each qs' (results ++ [r]) g'
  end.

(** The [i]-th value [randrange(2, n - 1)] delivers from the generator [g]. *)
Definition nth_draw (n : Z) (g : rng) (i : nat) : Z := 2 + g i mod (n - 1 - 2).

(** Whether the trial with witness [a] passes, for given [r] and [d]. *)
Definition round_passes (n r d a : Z) : bool :=
  match witness_round n r d a with
  | Ok b => b
  | Raise _ => false
  end.

(** Whether the trial of [is_prime_miller_rabin n] passes with witness [a]. *)
Definition passes_round (n a : Z) : bool :=
  match halve_while_even (S (Z.to_nat (Z.log2 (n - 1)))) 0 (n - 1) with
  | Ok (r, d) => round_passes n r d a
  | Raise _ => false
  end.

(** The entry of the table at a non-negative index. *)
Definition tget (t : list bool) (j : Z) : bool := nth (Z.to_nat j) t false.

(** After the outer loop has handled every [i < bound], entry [j] of the
    table is still set exactly when [j >= 2] has no proper divisor below
    [bound]. *)
Definition sieve_inv (n bound : Z) (t : list bool) : Prop :=
  Z.of_nat (length t) = n + 1
  /\ forall j, 0 <= j <= n ->
       (tget t j = true <->
        2 <= j /\ forall d, 2 <= d < bound -> d < j -> ~ (d | j)).

(** The primes the sieve returns, the empty list when it raises. *)
Definition primes_of (n : Z) : list Z :=
  match sieve_primes n with
  | Ok l => l
  | Raise _ => []
  end.

(** Whether the brute-force count for [p] is [omega_Q p]. *)
Definition omega_agrees (p : Z) : bool :=
  match brute_count p with
  | Ok brute => brute =? omega_Q p
  | Raise _ => false
  end.

(** Equality of row types. *)
Definition ptype_eqb (a b : ptype) : bool :=
  match a, b with
  | SPLIT, SPLIT | ramified, ramified | shield, shield => true
  | _, _ => false
  end.

(** Whether the row of the prime [p] carries the type [c]. *)
Definition classified (c : ptype) (p : Z) : bool :=
  ptype_eqb (ptype_of (omega_Q p) p) c.

(** The number of entries of [l] that satisfy [f]. *)
Definition count_if (f : Z -> bool) (l : list Z) : Z :=
  Z.of_nat (length (filter f l)).

(** Whether the printed rows hold one for the prime [p] with the value [w]
    of omega and the type [c]. *)
Definition has_row (rows : list cq_row) (p w : Z) (c : ptype) : bool :=
  existsb (fun r => (row_p r =? p) && (row_omega r =? w) && ptype_eqb (row_ptype r) c)
          rows.

(** The rows a verbose [compute_CQ p_max] prints. *)
Definition rows_of (p_max : Z) : list cq_row :=
  match compute_CQ_run p_max true with
  | Ok (_, rows) => rows
  | Raise _ => []
  end.

(** Trial division: [true] only when no [e >= d] with [e * e <= n] divides
    [n]. *)
Fixpoint no_divisor_from (fuel : nat) (d n : Z) : bool :=
  match fuel with
  | O => n <? d * d
  | S fuel' =>
      if n <? d * d then true
      else if n mod d =? 0 then false
      else no_divisor_from fuel' (d + 1) n
  end.

Definition trial_prime (n : Z) : bool :=
  (2 <=? n) && no_divisor_from (Z.to_nat (Z.sqrt n)) 2 n.

(** Every odd [n] in [[4, bound)] that trial division does not certify
    prime fails the trial with the witness 2 or with the witness 3. *)
Definition small_witness_check (bound : Z) : bool :=
  forallb
    (fun n =>
       (n mod 2 =? 0) || trial_prime n
       || negb (passes_round n 2) || negb (passes_round n 3))
    (range 4 bound).

(** The number of characters of [z] written in decimal, sign included. *)
Definition decimal_length (z : Z) : Z :=
  Z.of_nat (String.length (DecimalString.NilZero.string_of_int (Z.to_int z))).

(** The generator once its first [c] values are consumed. *)
Definition drop_draws (c : nat) (g : rng) : rng := fun i => g (c + i)%nat.

(** The first of the [k] trials of [is_prime_miller_rabin n] that fails on
    the run [g], if any. *)
Definition first_failing_trial (n : Z) (g : rng) (k : nat) : option nat :=
  find (fun i => negb (passes_round n (nth_draw n g i))) (seq 0 k).

(** Whether a prime is printed by a verbose [compute_CQ p_max]. *)
Definition row_printed (p_max p : Z) : bool :=
  (p <=? 53) || existsb (Z.eqb p) (milestones p_max)
  || ((p <? 300) && ((p - 1) mod 47 =? 0)).

(** * Properties *)

Lemma bind_Ok {A B : Type} (a : A) (k : A -> result B) : bind (Ok a) k = k a.
Proof. reflexivity. Qed.

Lemma Ok_inj {A : Type} (a b : A) : Ok a = Ok b -> a = b.
Proof. intros H. congruence. Qed.

(** ** Ranges *)

Lemma range_In (a b x : Z) : In x (range a b) <-> a <= x < b.
Proof.
  unfold range. rewrite in_map_iff. split.
  - intros (i & <- & Hi). apply in_seq in Hi. lia.
  - intros H. exists (Z.to_nat (x - a)). split; [lia|].
    apply in_seq. lia.
Qed.

Lemma range_nil (a b : Z) : b <= a -> range a b = [].
Proof.
  intros H. unfold range. replace (Z.to_nat (b - a)) with O by lia. reflexivity.
Qed.

Lemma range_cons (a b : Z) : a < b -> range a b = a :: range (a + 1) b.
Proof.
  intros H. unfold range.
  replace (Z.to_nat (b - a)) with (S (Z.to_nat (b - (a + 1)))) by lia.
  cbn [seq map]. f_equal; [lia|].
  rewrite <- seq_shift, map_map. apply map_ext. intros i. lia.
Qed.

Lemma range_sorted (a b : Z) : StronglySorted Z.lt (range a b).
Proof.
  remember (Z.to_nat (b - a)) as k eqn:Hk. revert a Hk.
  induction k as [|k IH]; intros a Hk.
  - rewrite range_nil by lia. constructor.
  - rewrite range_cons by lia. constructor.
    + apply IH. lia.
    + apply Forall_forall. intros x Hx. apply range_In in Hx. lia.
Qed.

Lemma sorted_filter (f : Z -> bool) (l : list Z) :
  StronglySorted Z.lt l -> StronglySorted Z.lt (filter f l).
Proof.
  induction 1 as [|x l Hs IH Hx]; cbn; [constructor|].
  destruct (f x); [|exact IH].
  constructor; [exact IH|].
  apply Forall_forall. intros y Hy. apply filter_In in Hy.
  rewrite Forall_forall in Hx. apply Hx, Hy.
Qed.

Lemma sorted_NoDup (l : list Z) : StronglySorted Z.lt l -> NoDup l.
Proof.
  induction 1 as [|x l Hs IH Hx]; constructor; [|exact IH].
  intros Hin. rewrite Forall_forall in Hx. specialize (Hx _ Hin). lia.
Qed.

(** ** The polynomial *)

Lemma Q_mod_3 (n : Z) : Q n mod 3 = 1.
Proof.
  unfold Q.
  rewrite Zminus_mod, <- (Z.mod_pow_l n 47 3), <- (Z.mod_pow_l (n - 1) 47 3).
  rewrite (Zminus_mod n 1).
  assert (H : n mod 3 = 0 \/ n mod 3 = 1 \/ n mod 3 = 2)
    by (pose proof (Z.mod_pos_bound n 3); lia).
  destruct H as [-> | [-> | ->]]; reflexivity.
Qed.

Lemma odd_47 : Z.Odd 47.
Proof. exists 23. reflexivity. Qed.

Lemma pow47_lt_mono (a b : Z) : a < b -> a ^ 47 < b ^ 47.
Proof.
  intros Hab.
  destruct (Z_lt_le_dec a 0) as [Ha | Ha].
  - assert (Hna : 0 < (- a) ^ 47) by (apply Z.pow_pos_nonneg; lia).
    rewrite (Z.pow_opp_odd a 47 odd_47) in Hna.
    destruct (Z_lt_le_dec b 0) as [Hb | Hb].
    + assert (H : (- b) ^ 47 < (- a) ^ 47) by (apply Z.pow_lt_mono_l; lia).
      rewrite !(Z.pow_opp_odd _ 47 odd_47) in H. lia.
    + assert (0 <= b ^ 47) by (apply Z.pow_nonneg; lia). lia.
  - apply Z.pow_lt_mono_l; lia.
Qed.

Lemma Q_unfold (n : Z) : Q n = n ^ 47 - (n - 1) ^ 47.
Proof. reflexivity. Qed.

Lemma Q_positive (n : Z) : 1 <= Q n.
Proof.
  unfold Q. pose proof (pow47_lt_mono (n - 1) n). lia.
Qed.

(** ** The limit of the conversion to a string *)




Lemma str_int_ok (z : Z) :
  Z.abs z < 10 ^ max_str_digits ->
  str_int z = Ok (DecimalString.NilZero.string_of_int (Z.to_int z)).
Proof.
  intros H. unfold str_int.
  destruct (Z.leb_spec (10 ^ max_str_digits) (Z.abs z)); [lia | reflexivity].
Qed.

Lemma str_int_raises (z : Z) :
  10 ^ max_str_digits <= Z.abs z -> str_int z = Raise ValueError.
Proof.
  intros H. unfold str_int.
  destruct (Z.leb_spec (10 ^ max_str_digits) (Z.abs z)); [reflexivity | lia].
Qed.

Lemma len_str_ok (z : Z) :
  Z.abs z < 10 ^ max_str_digits -> len_str z = Ok (decimal_length z).
Proof. intros H. unfold len_str. rewrite (str_int_ok z H). reflexivity. Qed.

Lemma len_str_raises (z : Z) :
  10 ^ max_str_digits <= Z.abs z -> len_str z = Raise ValueError.
Proof. intros H. unfold len_str. rewrite (str_int_raises z H). reflexivity. Qed.

(** ** The exclusion loop *)










(** C8.  Q(n) is exactly n^47 - (n-1)^47 over the unbounded integers, with no
    reduction: Q(2) = 2^47 - 1 = 140737488355327, and the values leave every
    machine word behind (Q(3) is already above 2^64). *)
Theorem C8_Q_exact (n : Z) :
  Q n = n ^ 47 - (n - 1) ^ 47
  /\ Q 2 = 2 ^ 47 - 1
  /\ Q 2 = 140737488355327
  /\ 2 ^ 64 < Q 3.
Proof.
  split; [reflexivity|]. split; [reflexivity|]. split; [reflexivity|].
  vm_compute. reflexivity.
Qed.

Lemma quadruplet_loop_candidates (n : Z) (idxs : list Z) (results : list (bool * Z))
    (g : rng) :
  quadruplet_loop n idxs results g
  = test_each (map (fun i => Q (n + i)) idxs) results g.
Proof.
  revert results g. induction idxs as [|i idxs IH]; intros results g; cbn.
  - reflexivity.
  - destruct (test_candidate (Q (n + i)) g) as [[r g'] | e]; cbn; [apply IH | reflexivity].
Qed.

(** C9.  Q(n) >= 1 for every integer n, positive, zero or negative; so the
    four values that [verify_quadruplet n] passes to the primality tester,
    Q(n), ..., Q(n+3), are positive integers. *)
Theorem C9_Q_positive (n : Z) :
  1 <= Q n
  /\ (forall g, verify_quadruplet n g
                = ('(results, g') <- test_each (quadruplet_candidates n) [] g ;;
                   Ok ((forallb fst results, map snd results), g')))
  /\ quadruplet_candidates n = [Q n; Q (n + 1); Q (n + 2); Q (n + 3)]
  /\ Forall (fun q => 1 <= q) (quadruplet_candidates n).
Proof.
  split; [apply Q_positive|]. split; [|split].
  - intros g. unfold verify_quadruplet.
    rewrite quadruplet_loop_candidates. reflexivity.
  - unfold quadruplet_candidates, range.
    change (Z.to_nat (4 - 0)) with 4%nat. cbn [seq map].
    repeat f_equal; lia.
  - unfold quadruplet_candidates. apply Forall_forall.
    intros q Hq. apply in_map_iff in Hq. destruct Hq as (i & <- & _).
    apply Q_positive.
Qed.

(** ** Modular exponentiation *)

Lemma pow_mod_pos_correct (base : Z) (e : positive) (modulus : Z) :
  modulus <> 0 -> pow_mod_pos base e modulus = base ^ Zpos e mod modulus.
Proof.
  intros Hm. induction e as [e IH | e IH |]; cbn [pow_mod_pos].
  - rewrite IH, <- Z.mul_mod, Z.mul_mod_idemp_l by assumption. f_equal.
    replace (Zpos e~1) with (Zpos e + Zpos e + 1) by lia.
    rewrite !Z.pow_add_r, Z.pow_1_r by lia. reflexivity.
  - rewrite IH, <- Z.mul_mod by assumption. f_equal.
    replace (Zpos e~0) with (Zpos e + Zpos e) by lia.
    rewrite Z.pow_add_r by lia. reflexivity.
  - rewrite Z.pow_1_r. reflexivity.
Qed.

Lemma pow3_nonneg (base exp modulus : Z) :
  modulus <> 0 -> 0 <= exp -> pow3 base exp modulus = Ok (base ^ exp mod modulus).
Proof.
  intros Hm He. unfold pow3.
  destruct (Z.eqb_spec modulus 0) as [|_]; [contradiction|].
  destruct exp as [|e|e]; [reflexivity| |lia].
  rewrite pow_mod_pos_correct by assumption. reflexivity.
Qed.

Lemma pow3_zero_modulus (base exp : Z) : pow3 base exp 0 = Raise ValueError.
Proof. reflexivity. Qed.

Lemma pow3_square (x n : Z) : 0 < n -> pow3 x 2 n = Ok (x * x mod n).
Proof.
  intros Hn. rewrite pow3_nonneg by lia. rewrite Z.pow_2_r. reflexivity.
Qed.

(** ** Miller-Rabin *)

Lemma halve_while_even_spec (fuel : nat) :
  forall r d, 0 < d -> Z.log2 d < Z.of_nat fuel ->
    exists r' d',
      halve_while_even fuel r d = Ok (r', d')
      /\ r <= r' /\ 0 < d' /\ d' mod 2 = 1 /\ d = d' * 2 ^ (r' - r)
      /\ (d mod 2 = 0 -> r < r').
Proof.
  induction fuel as [|fuel IH]; intros r d Hd Hlog.
  - pose proof (Z.log2_nonneg d). cbn in Hlog. lia.
  - cbn [halve_while_even].
    pose proof (Z.mod_pos_bound d 2 ltac:(lia)) as Hb.
    pose proof (Z.div_mod d 2 ltac:(lia)) as Hdm.
    destruct (Z.eqb_spec (d mod 2) 0) as [E | E].
    + assert (Hq : 0 < d / 2) by lia.
      assert (Hl : Z.log2 (d / 2) < Z.of_nat fuel).
      { replace d with (2 * (d / 2)) in Hlog by lia.
        rewrite Z.log2_double in Hlog by assumption. lia. }
      destruct (IH (r + 1) (d / 2) Hq Hl) as (r' & d' & -> & Hr & Hd' & Hodd & Heq & _).
      exists r', d'. repeat split; try lia.
      replace (r' - r) with (Z.succ (r' - (r + 1))) by lia.
      rewrite Z.pow_succ_r by lia. lia.
    + exists r, d. repeat split; try lia.
      rewrite Z.sub_diag, Z.pow_0_r. lia.
Qed.

Lemma halve_n_minus_1 (n : Z) :
  3 < n -> n mod 2 <> 0 ->
  exists r d,
    halve_while_even (S (Z.to_nat (Z.log2 (n - 1)))) 0 (n - 1) = Ok (r, d)
    /\ 1 <= r /\ 0 < d /\ d mod 2 = 1 /\ n - 1 = d * 2 ^ r.
Proof.
  intros Hn Hodd.
  pose proof (Z.log2_nonneg (n - 1)).
  destruct (halve_while_even_spec (S (Z.to_nat (Z.log2 (n - 1)))) 0 (n - 1))
    as (r & d & E & Hr & Hd & Hdo & Heq & Hev); [lia | lia |].
  exists r, d. rewrite Z.sub_0_r in Heq. repeat split; auto.
  assert (Hm : (n - 1) mod 2 = 0).
  { pose proof (Z.mod_pos_bound n 2 ltac:(lia)).
    rewrite Zminus_mod. replace (n mod 2) with 1 by lia. reflexivity. }
  specialize (Hev Hm). lia.
Qed.

Lemma square_loop_total (count : nat) :
  forall x n, 0 < n -> exists b, square_loop count x n = Ok b.
Proof.
  induction count as [|count IH]; intros x n Hn; cbn [square_loop].
  - eexists; reflexivity.
  - rewrite pow3_square by assumption. cbn [bind].
    destruct (x * x mod n =? n - 1); [eexists; reflexivity | apply IH, Hn].
Qed.

Lemma witness_round_total (n r d a : Z) :
  0 < n -> 0 <= d -> exists b, witness_round n r d a = Ok b.
Proof.
  intros Hn Hd. unfold witness_round.
  rewrite pow3_nonneg by lia. cbn [bind].
  destruct (_ || _); [eexists; reflexivity | apply square_loop_total, Hn].
Qed.

Lemma forallb_map {A B : Type} (f : B -> bool) (h : A -> B) (l : list A) :
  forallb f (map h l) = forallb (fun x => f (h x)) l.
Proof.
  induction l as [|x l IH]; cbn; [reflexivity|]. rewrite IH. reflexivity.
Qed.

Lemma nth_draw_range (n : Z) (g : rng) (i : nat) :
  3 < n -> 2 <= nth_draw n g i <= n - 2.
Proof.
  intros Hn. unfold nth_draw.
  pose proof (Z.mod_pos_bound (g i) (n - 1 - 2) ltac:(lia)). lia.
Qed.

Lemma witness_rounds_outcome (n r d : Z) :
  3 < n -> 0 <= d ->
  forall k g,
    value_of (witness_rounds k n r d g)
    = Ok (forallb (fun i => round_passes n r d (nth_draw n g i)) (seq 0 k)).
Proof.
  intros Hn Hd. induction k as [|k IH]; intros g.
  - reflexivity.
  - cbn [witness_rounds]. unfold randrange.
    destruct (Z.leb_spec (n - 1) 2) as [?|_]; [lia|]. cbn [bind].
    change (2 + g 0%nat mod (n - 1 - 2)) with (nth_draw n g 0).
    cbn [seq forallb]. unfold round_passes at 1.
    destruct (witness_round_total n r d (nth_draw n g 0) ltac:(lia) Hd) as (b & ->).
    cbn [bind]. destruct b; cbn [andb]; [|reflexivity].
    rewrite IH, <- seq_shift, forallb_map. reflexivity.
Qed.

Lemma miller_rabin_outcome (n k : Z) (g : rng) :
  3 < n -> n mod 2 <> 0 ->
  value_of (is_prime_miller_rabin n k g)
  = Ok (forallb (fun i => passes_round n (nth_draw n g i)) (seq 0 (Z.to_nat k))).
Proof.
  intros Hn Hodd. unfold is_prime_miller_rabin, passes_round.
  destruct (Z.ltb_spec n 2) as [?|_]; [lia|].
  destruct (Z.eqb_spec n 2) as [?|_]; [lia|].
  destruct (Z.eqb_spec n 3) as [?|_]; [lia|]. cbn [orb].
  destruct (Z.eqb_spec (n mod 2) 0) as [?|_]; [contradiction|].
  destruct (halve_n_minus_1 n Hn Hodd) as (r & d & -> & Hr & Hd & _).
  cbn [bind]. apply witness_rounds_outcome; lia.
Qed.

Lemma miller_rabin_trivial (n k : Z) (g : rng) :
  (n < 2 -> is_prime_miller_rabin n k g = Ok (false, g))
  /\ (n = 2 \/ n = 3 -> is_prime_miller_rabin n k g = Ok (true, g))
  /\ (3 < n -> n mod 2 = 0 -> is_prime_miller_rabin n k g = Ok (false, g)).
Proof.
  unfold is_prime_miller_rabin. repeat split.
  - intros H. destruct (Z.ltb_spec n 2); [reflexivity | lia].
  - intros [-> | ->]; reflexivity.
  - intros H E. destruct (Z.ltb_spec n 2); [lia|].
    destruct (Z.eqb_spec n 2); [lia|]. destruct (Z.eqb_spec n 3); [lia|].
    cbn [orb]. rewrite E. reflexivity.
Qed.

(** C6 (as the code has it).  The modular power the tester calls is the
    builtin [pow]: it fails (ValueError) exactly when the modulus is zero; for
    a positive modulus and an exponent >= 0 it returns base^exponent mod
    modulus, in [0, modulus); for a negative modulus it does not fail but
    returns the residue of the modulus' sign, in (modulus, 0]. *)
Theorem C6_pow3_contract (base exp modulus : Z) :
  (modulus = 0 -> pow3 base exp modulus = Raise ValueError)
  /\ (0 < modulus -> 0 <= exp ->
        pow3 base exp modulus = Ok (base ^ exp mod modulus)
        /\ 0 <= base ^ exp mod modulus < modulus)
  /\ (modulus < 0 -> 0 <= exp ->
        pow3 base exp modulus = Ok (base ^ exp mod modulus)
        /\ modulus < base ^ exp mod modulus <= 0).
Proof.
  repeat split.
  - intros ->. apply pow3_zero_modulus.
  - apply pow3_nonneg; lia.
  - apply Z.mod_pos_bound; lia.
  - apply Z.mod_pos_bound; lia.
  - apply pow3_nonneg; lia.
  - apply Z.mod_neg_bound; lia.
  - apply Z.mod_neg_bound; lia.
Qed.

Lemma C6_pow3_contract_witness :
  pow3 2 10 0 = Raise ValueError
  /\ (pow3 2 10 7 = Ok (2 ^ 10 mod 7) /\ 0 <= 2 ^ 10 mod 7 < 7)
  /\ (pow3 2 3 (-5) = Ok (2 ^ 3 mod (-5)) /\ -5 < 2 ^ 3 mod (-5) <= 0).
Proof.
  split; [|split].
  - apply (C6_pow3_contract 2 10 0). reflexivity.
  - apply (C6_pow3_contract 2 10 7); lia.
  - apply (C6_pow3_contract 2 3 (-5)); lia.
Defined.

(** A negative modulus is not refused: pow(2, 3, -5) is -2. *)
Lemma C6_negative_modulus_returns :
  -5 <= 0 /\ pow3 2 3 (-5) = Ok (-2) /\ pow3 2 3 (-5) <> Raise ValueError.
Proof. split; [lia|]. split; [reflexivity | discriminate]. Qed.

(** C10.  With zero rounds the witness loop does not run:
    [is_prime_miller_rabin n 0] returns True for every odd n >= 5, prime or
    not, and draws nothing from the generator. *)
Theorem C10_zero_rounds (n : Z) (g : rng) :
  5 <= n -> n mod 2 = 1 -> is_prime_miller_rabin n 0 g = Ok (true, g).
Proof.
  intros Hn Hodd. unfold is_prime_miller_rabin.
  destruct (Z.ltb_spec n 2) as [?|_]; [lia|].
  destruct (Z.eqb_spec n 2) as [?|_]; [lia|].
  destruct (Z.eqb_spec n 3) as [?|_]; [lia|]. cbn [orb].
  destruct (Z.eqb_spec (n mod 2) 0) as [?|_]; [lia|].
  destruct (halve_n_minus_1 n ltac:(lia) ltac:(lia)) as (r & d & -> & _).
  reflexivity.
Qed.

Lemma C10_zero_rounds_witness :
  9 = 3 * 3 /\ is_prime_miller_rabin 9 0 (fun _ => 0) = Ok (true, fun _ => 0).
Proof.
  split; [reflexivity|]. apply (C10_zero_rounds 9 (fun _ => 0)); [lia | reflexivity].
Defined.

(** *** No false negatives *)

Lemma prime_sqrt_one (n x : Z) :
  Z.prime n -> 0 <= x < n -> x * x mod n = 1 -> x = 1 \/ x = n - 1.
Proof.
  intros Hp Hx Hsq. pose proof (Z.prime_ge_2 n Hp) as Hn.
  assert (Hdiv : (n | (x - 1) * (x + 1))).
  { exists (x * x / n). pose proof (Z.div_mod (x * x) n ltac:(lia)). lia. }
  apply (Z.divide_prime_mul _ _ _ Hp) in Hdiv.
  destruct Hdiv as [[q Hq] | [q Hq]].
  - left. assert (q = 0) by nia. subst q. lia.
  - right. assert (q = 1) by nia. subst q. lia.
Qed.

Lemma square_loop_prime (n : Z) :
  Z.prime n ->
  forall count x,
    0 <= x < n -> x <> 1 -> x <> n - 1 ->
    x ^ (2 ^ Z.of_nat (S count)) mod n = 1 ->
    square_loop count x n = Ok true.
Proof.
  intros Hp. pose proof (Z.prime_ge_2 n Hp) as Hn.
  induction count as [|count IH]; intros x Hx H1 Hm1 Hpow.
  - exfalso. change (2 ^ Z.of_nat 1) with 2 in Hpow. rewrite Z.pow_2_r in Hpow.
    destruct (prime_sqrt_one n x Hp Hx Hpow); contradiction.
  - cbn [square_loop]. rewrite pow3_square by lia. cbn [bind].
    destruct (Z.eqb_spec (x * x mod n) (n - 1)) as [|Hne]; [reflexivity|].
    apply IH.
    + apply Z.mod_pos_bound. lia.
    + intros E. destruct (prime_sqrt_one n x Hp Hx E); contradiction.
    + exact Hne.
    + rewrite <- Z.pow_2_r, Z.mod_pow_l, <- Z.pow_mul_r by lia.
      rewrite <- Z.pow_succ_r by lia.
      rewrite <- Nat2Z.inj_succ. exact Hpow.
Qed.

Lemma passes_round_prime (n a : Z) :
  Z.prime n -> 3 < n -> 1 <= a < n -> passes_round n a = true.
Proof.
  intros Hp Hn Ha. unfold passes_round.
  assert (Hodd : n mod 2 <> 0).
  { intros E. destruct Hp as [_ Hp]. apply (Hp 2); [lia|].
    apply Z.mod_divide; [lia | exact E]. }
  destruct (halve_n_minus_1 n Hn Hodd) as (r & d & -> & Hr & Hd & _ & Heq).
  unfold round_passes, witness_round.
  rewrite pow3_nonneg by lia. cbn [bind].
  destruct (Z.eqb_spec (a ^ d mod n) 1) as [|H1]; [reflexivity|].
  destruct (Z.eqb_spec (a ^ d mod n) (n - 1)) as [|Hm1]; [reflexivity|].
  cbn [orb]. rewrite (square_loop_prime n Hp); auto.
  - apply Z.mod_pos_bound. lia.
  - replace (Z.of_nat (S (Z.to_nat (r - 1)))) with r by lia.
    rewrite Z.mod_pow_l, <- Z.pow_mul_r by lia.
    rewrite <- Heq. apply Z.fermat_nz; [exact Hp|].
    rewrite Z.mod_small by lia. lia.
Qed.

Lemma miller_rabin_prime (n k : Z) (g : rng) :
  Z.prime n -> value_of (is_prime_miller_rabin n k g) = Ok true.
Proof.
  intros Hp. pose proof (Z.prime_ge_2 n Hp) as Hn.
  destruct (Z_le_gt_dec n 3) as [Hs | Hb].
  - destruct (miller_rabin_trivial n k g) as (_ & H23 & _).
    rewrite H23 by lia. reflexivity.
  - assert (Hodd : n mod 2 <> 0).
    { intros E. destruct Hp as [_ Hp']. apply (Hp' 2); [lia|].
      apply Z.mod_divide; [lia | exact E]. }
    rewrite miller_rabin_outcome by lia. f_equal.
    apply forallb_forall. intros i _.
    pose proof (nth_draw_range n g i ltac:(lia)).
    apply passes_round_prime; [exact Hp | lia | lia].
Qed.

(** C2.  A prime is never reported composite: for a prime n
    [is_prime_miller_rabin n k] returns True for every round count and every
    run of the generator; so a False answer certifies that n is not prime,
    and for n >= 2 that it has a proper divisor. *)
Theorem C2_no_false_negatives (n k : Z) (g : rng) :
  (Z.prime n -> value_of (is_prime_miller_rabin n k g) = Ok true)
  /\ (value_of (is_prime_miller_rabin n k g) = Ok false ->
        ~ Z.prime n /\ (2 <= n -> exists a, 1 < a < n /\ (a | n))).
Proof.
  split; [apply miller_rabin_prime|].
  intros Hf.
  assert (Hnp : ~ Z.prime n).
  { intros Hp. rewrite (miller_rabin_prime n k g Hp) in Hf. discriminate. }
  split; [exact Hnp|].
  intros Hn. apply not_prime_divide; [lia|].
  intros Hp. apply Hnp, prime_alt, Hp.
Qed.

Lemma prime_7 : Z.prime 7.
Proof.
  split; [lia|]. intros d Hd [q Hq].
  assert (H : d = 2 \/ d = 3 \/ d = 4 \/ d = 5 \/ d = 6) by lia.
  destruct H as [-> | [-> | [-> | [-> | ->]]]]; lia.
Qed.

Lemma C2_no_false_negatives_witness :
  Z.prime 7 /\ value_of (is_prime_miller_rabin 7 25 (fun i => Z.of_nat i)) = Ok true.
Proof.
  split; [exact prime_7|].
  apply (C2_no_false_negatives 7 25 (fun i => Z.of_nat i)). exact prime_7.
Defined.

(** ** The sieve *)

Lemma list_get_ok (t : list bool) (j : Z) :
  0 <= j < Z.of_nat (length t) -> list_get t j = Ok (tget t j).
Proof.
  intros Hj. unfold list_get, norm_index, tget.
  assert (E : (j <? 0) = false) by lia. cbv zeta. rewrite !E.
  rewrite (nth_error_nth' t false) by lia. reflexivity.
Qed.

Lemma list_set_ok {A : Type} (t : list A) (j : Z) (v : A) :
  0 <= j < Z.of_nat (length t) -> list_set t j v = Ok (set_nth t (Z.to_nat j) v).
Proof.
  intros Hj. unfold list_set, norm_index.
  assert (E : (j <? 0) = false) by lia. cbv zeta. rewrite !E.
  assert (E1 : (0 <=? j) = true) by lia.
  assert (E2 : (j <? Z.of_nat (length t)) = true) by lia.
  rewrite E1, E2. reflexivity.
Qed.

Lemma set_nth_length {A : Type} (l : list A) (i : nat) (v : A) :
  length (set_nth l i v) = length l.
Proof.
  revert i. induction l as [|h l IH]; intros [|i]; cbn; auto.
Qed.

Lemma nth_set_nth_eq {A : Type} (l : list A) (i : nat) (v d : A) :
  (i < length l)%nat -> nth i (set_nth l i v) d = v.
Proof.
  revert i. induction l as [|h l IH]; intros [|i] Hi; cbn in *; try lia; auto.
  apply IH. lia.
Qed.

Lemma nth_set_nth_ne {A : Type} (l : list A) (i k : nat) (v d : A) :
  k <> i -> nth k (set_nth l i v) d = nth k l d.
Proof.
  revert i k. induction l as [|h l IH]; intros [|i] [|k] Hne; cbn; auto; try lia.
Qed.

Lemma tget_set_nth (t : list bool) (j k : Z) (v : bool) :
  0 <= j < Z.of_nat (length t) -> 0 <= k ->
  tget (set_nth t (Z.to_nat j) v) k = if k =? j then v else tget t k.
Proof.
  intros Hj Hk. unfold tget.
  destruct (Z.eqb_spec k j) as [-> | Hne].
  - apply nth_set_nth_eq. lia.
  - apply nth_set_nth_ne. lia.
Qed.

Lemma mark_all (js : list Z) :
  forall t,
    (forall j, In j js -> 0 <= j < Z.of_nat (length t)) ->
    exists t',
      for_in js (fun j is_prime => list_set is_prime j false) t = Ok t'
      /\ length t' = length t
      /\ forall k, 0 <= k -> (tget t' k = true <-> tget t k = true /\ ~ In k js).
Proof.
  induction js as [|j js IH]; intros t Hjs.
  - exists t. cbn. repeat split; tauto.
  - cbn [for_in]. rewrite list_set_ok by (apply Hjs; left; reflexivity).
    cbn [bind].
    destruct (IH (set_nth t (Z.to_nat j) false)) as (t' & -> & Hlen & Hget).
    { intros j' Hj'. rewrite set_nth_length. apply Hjs. right. exact Hj'. }
    exists t'. split; [reflexivity|]. split.
    { rewrite Hlen. apply set_nth_length. }
    intros k Hk. rewrite Hget by exact Hk.
    assert (Hj : 0 <= j < Z.of_nat (length t)) by (apply Hjs; left; reflexivity).
    rewrite (tget_set_nth t j k false Hj Hk).
    cbn [In]. destruct (Z.eqb_spec k j) as [-> | Hne].
    + split; [intros [H _]; discriminate | intros [_ H]; exfalso; apply H; auto].
    + split; [intros [H1 H2]; split; [exact H1 | intros [E | E]; [congruence | tauto]]
             | intros [H1 H2]; split; [exact H1 | tauto]].
Qed.

Lemma range3_pos (a b s : Z) :
  0 < s ->
  exists l, range3 a b s = Ok l /\ forall x, In x l <-> a <= x < b /\ (s | x - a).
Proof.
  intros Hs. unfold range3.
  destruct (Z.eqb_spec s 0) as [?|_]; [lia|].
  destruct (Z.ltb_spec 0 s) as [_|?]; [|lia].
  eexists. split; [reflexivity|].
  intros x. rewrite in_map_iff. split.
  - intros (i & <- & Hi). apply in_seq in Hi.
    pose proof (Z.mul_div_le (b - a + s - 1) s Hs).
    split; [nia | exists (Z.of_nat i); lia].
  - intros (Hx & q & Hq).
    assert (0 <= q) by nia.
    exists (Z.to_nat q). split; [rewrite Z2Nat.id by lia; lia|].
    apply in_seq. split; [lia|]. cbn.
    assert (q + 1 <= (b - a + s - 1) / s) by (apply Z.div_le_lower_bound; nia).
    lia.
Qed.

Lemma comprehension_if_get (t : list bool) (xs : list Z) :
  (forall x, In x xs -> 0 <= x < Z.of_nat (length t)) ->
  comprehension_if xs (fun i => list_get t i) = Ok (filter (tget t) xs).
Proof.
  induction xs as [|x xs IH]; intros Hxs; cbn [comprehension_if filter].
  - reflexivity.
  - rewrite list_get_ok by (apply Hxs; left; reflexivity). cbn [bind].
    rewrite IH by (intros y Hy; apply Hxs; right; exact Hy). cbn [bind].
    destruct (tget t x); reflexivity.
Qed.

Lemma list_repeat_ok {A : Type} (v : A) (count : Z) :
  - 2 ^ 63 <= count -> list_repeat v count = Ok (repeat v (Z.to_nat count)).
Proof.
  intros H. unfold list_repeat.
  destruct (Z.ltb_spec count (- 2 ^ 63)); [lia | reflexivity].
Qed.

Lemma list_repeat_raises {A : Type} (v : A) (count : Z) :
  count < - 2 ^ 63 -> list_repeat v count = Raise OverflowError.
Proof.
  intros H. unfold list_repeat.
  destruct (Z.ltb_spec count (- 2 ^ 63)); [reflexivity | lia].
Qed.

Lemma sieve_init (n : Z) :
  1 <= n ->
  exists t,
    (is_prime <- list_set (repeat true (Z.to_nat (n + 1))) 0 false ;;
     list_set is_prime 1 false) = Ok t
    /\ sieve_inv n 2 t.
Proof.
  intros Hn.
  set (t0 := repeat true (Z.to_nat (n + 1))).
  assert (L0 : Z.of_nat (length t0) = n + 1)
    by (unfold t0; rewrite repeat_length; lia).
  rewrite list_set_ok by lia. cbn [bind].
  rewrite list_set_ok by (rewrite set_nth_length; lia).
  eexists. split; [reflexivity|]. split.
  - rewrite !set_nth_length. exact L0.
  - intros j Hj.
    rewrite tget_set_nth by (rewrite ?set_nth_length; lia).
    rewrite tget_set_nth by lia.
    destruct (Z.eqb_spec j 1) as [-> | H1].
    { split; [discriminate | lia]. }
    destruct (Z.eqb_spec j 0) as [-> | H0].
    { split; [discriminate | lia]. }
    unfold tget, t0. rewrite nth_repeat_lt by lia.
    split; [intros _; split; [lia | intros; lia] | reflexivity].
Qed.

Lemma sieve_step (n i : Z) (t : list bool) :
  sieve_inv n i t -> 2 <= i -> i * i <= n ->
  exists t', mark_multiples n i t = Ok t' /\ sieve_inv n (i + 1) t'.
Proof.
  intros [Hlen Hinv] Hi Hsq.
  assert (Hin : i <= n) by nia.
  unfold mark_multiples. rewrite list_get_ok by lia. cbn [bind].
  destruct (tget t i) eqn:Hmark.
  - destruct (range3_pos (i * i) (n + 1) i ltac:(lia)) as (js & -> & Hjs).
    cbn [bind].
    destruct (mark_all js t) as (t' & -> & Hlen' & Hget).
    { intros j Hj. apply Hjs in Hj. nia. }
    exists t'. split; [reflexivity|]. split; [rewrite Hlen'; exact Hlen|].
    intros j Hj. rewrite Hget by lia. rewrite (Hinv j Hj), Hjs. split.
    + intros [[H2 Hold] Hnot]. split; [exact H2|].
      intros d Hd Hdj Hdiv.
      destruct (Z.eq_dec d i) as [-> | Hne]; [|apply (Hold d); [lia | lia | exact Hdiv]].
      destruct Hdiv as [q Hq].
      destruct (Z_lt_le_dec q i) as [Hlt | Hge].
      * apply (Hold q); [nia | nia | exists i; lia].
      * apply Hnot. split; [nia | exists (q - i); nia].
    + intros [H2 Hnew]. split.
      * split; [exact H2|]. intros d Hd Hdj. apply Hnew; lia.
      * intros [Hr [q Hq]]. apply (Hnew i); [lia | nia | exists (q + i); nia].
  - exists t. split; [reflexivity|]. split; [exact Hlen|].
    intros j Hj. rewrite (Hinv j Hj). split.
    + intros [H2 Hold]. split; [exact H2|].
      intros d Hd Hdj Hdiv.
      destruct (Z.eq_dec d i) as [-> | Hne]; [|apply (Hold d); [lia | lia | exact Hdiv]].
      assert (Hti : tget t i = true); [|congruence].
      apply (Hinv i); [lia|]. split; [lia|].
      intros d Hd' Hdi Hdiv'. apply (Hold d); [lia | lia |].
      apply Z.divide_trans with i; assumption.
    + intros [H2 Hnew]. split; [exact H2|].
      intros d Hd Hdj. apply Hnew; lia.
Qed.

Lemma sieve_outer_loop (n bound : Z) :
  bound * bound <= n ->
  forall count i t,
    sieve_inv n i t -> 2 <= i -> i + Z.of_nat count = bound + 1 ->
    exists t',
      for_in (range i (bound + 1)) (mark_multiples n) t = Ok t'
      /\ sieve_inv n (bound + 1) t'.
Proof.
  intros Hb. induction count as [|count IH]; intros i t Hinv Hi Hcount.
  - rewrite range_nil by lia. exists t. split; [reflexivity|].
    replace (bound + 1) with i by lia. exact Hinv.
  - rewrite range_cons by lia. cbn [for_in].
    destruct (sieve_step n i t Hinv Hi ltac:(nia)) as (t1 & -> & Hinv1).
    cbn [bind]. apply IH; [exact Hinv1 | lia | lia].
Qed.

Lemma sieve_inv_prime (n : Z) (t : list bool) :
  0 <= n -> sieve_inv n (Z.sqrt n + 1) t ->
  forall j, 0 <= j <= n -> (tget t j = true <-> Z.prime j).
Proof.
  intros Hn [_ Hinv] j Hj. rewrite (Hinv j Hj). unfold Z.prime. split.
  - intros [H2 Hnod]. split; [lia|].
    intros d Hd [q Hq].
    assert (Hq2 : 1 < q < j) by nia.
    destruct (Z_le_gt_dec d q) as [Hle | Hgt].
    + apply (Hnod d); [|lia | exists q; exact Hq].
      assert (d <= Z.sqrt n) by (apply Z.sqrt_le_square; nia). lia.
    + apply (Hnod q); [|lia | exists d; lia].
      assert (q <= Z.sqrt n) by (apply Z.sqrt_le_square; nia). lia.
  - intros [H1 Hnod]. split; [lia|].
    intros d Hd Hdj. apply Hnod. lia.
Qed.

(** For a bound of at least 1 the sieve returns the primes up to the bound,
    in increasing order. *)
Lemma sieve_primes_correct (n : Z) :
  1 <= n ->
  exists l,
    sieve_primes n = Ok l
    /\ StronglySorted Z.lt l
    /\ forall p, In p l <-> Z.prime p /\ p <= n.
Proof.
  intros Hn. unfold sieve_primes, isqrt_float. cbv zeta.
  rewrite list_repeat_ok, bind_Ok by lia.
  destruct (sieve_init n Hn) as (t1 & E1 & Hinv1).
  destruct (list_set (repeat true (Z.to_nat (n + 1))) 0 false) as [t0|e];
    cbn [bind] in E1 |- *; [|discriminate].
  rewrite E1. cbn [bind].
  pose proof (Z.sqrt_nonneg n) as Hs0.
  pose proof (Z.sqrt_spec n ltac:(lia)) as [Hs1 _]. cbv zeta in Hs1.
  destruct (sieve_outer_loop n (Z.sqrt n) Hs1 (Z.to_nat (Z.sqrt n + 1 - 2)) 2 t1 Hinv1)
    as (t & -> & Hinv); [lia | |].
  { assert (1 <= Z.sqrt n) by (apply Z.sqrt_le_square; lia). lia. }
  cbn [bind].
  assert (Hlen : Z.of_nat (length t) = n + 1) by apply Hinv.
  rewrite comprehension_if_get
    by (intros x Hx; apply range_In in Hx; lia).
  eexists. split; [reflexivity|]. split.
  - apply sorted_filter, range_sorted.
  - intros p. rewrite filter_In, range_In. split.
    + intros [Hr Ht]. split; [|lia].
      apply (sieve_inv_prime n t ltac:(lia) Hinv p); [lia | exact Ht].
    + intros [Hp Hle]. pose proof (Z.prime_ge_2 p Hp). split; [lia|].
      apply (sieve_inv_prime n t ltac:(lia) Hinv p); [lia | exact Hp].
Qed.

Lemma sieve_primes_of (n : Z) :
  1 <= n ->
  sieve_primes n = Ok (primes_of n)
  /\ StronglySorted Z.lt (primes_of n)
  /\ forall p, In p (primes_of n) <-> Z.prime p /\ p <= n.
Proof.
  intros Hn. destruct (sieve_primes_correct n Hn) as (l & E & Hs & Hin).
  unfold primes_of. rewrite E. auto.
Qed.

(** C3 (the failing input).  On the bound 0 the table has the single entry
    [is_prime[0]], and the unconditional [is_prime[1] = False] raises
    IndexError: no list of primes is returned. *)
Theorem C3_sieve_zero_raises : sieve_primes 0 = Raise IndexError.
Proof. reflexivity. Qed.

(** X1.  The sieve on every bound from 1 on returns the primes up to the
    bound, strictly increasing (so each once); on 100 these are the 25 primes
    2, ..., 97. *)
Theorem sieve_primes_from_one (limit : Z) :
  1 <= limit ->
  (exists l,
      sieve_primes limit = Ok l
      /\ StronglySorted Z.lt l
      /\ NoDup l
      /\ forall p, In p l <-> Z.prime p /\ p <= limit)
  /\ sieve_primes 100
     = Ok [2; 3; 5; 7; 11; 13; 17; 19; 23; 29; 31; 37; 41; 43; 47; 53; 59; 61;
           67; 71; 73; 79; 83; 89; 97]
  /\ (length (primes_of 100) = 25)%nat.
Proof.
  intros Hn. split; [|split; reflexivity].
  destruct (sieve_primes_correct limit Hn) as (l & E & Hs & Hin).
  exists l. split; [exact E|]. split; [exact Hs|].
  split; [apply sorted_NoDup, Hs | exact Hin].
Qed.

Lemma sieve_primes_from_one_witness :
  (exists l,
      sieve_primes 100 = Ok l
      /\ StronglySorted Z.lt l
      /\ NoDup l
      /\ forall p, In p l <-> Z.prime p /\ p <= 100)
  /\ sieve_primes 100
     = Ok [2; 3; 5; 7; 11; 13; 17; 19; 23; 29; 31; 37; 41; 43; 47; 53; 59; 61;
           67; 71; 73; 79; 83; 89; 97]
  /\ (length (primes_of 100) = 25)%nat.
Proof. apply (sieve_primes_from_one 100). lia. Defined.

(** ** The local factor rule *)

Lemma omega_Q_cases (p : Z) :
  omega_Q p = (if p =? 47 then 0 else if p mod 47 =? 1 then 46 else 0).
Proof.
  unfold omega_Q. destruct (p =? 47); [reflexivity|].
  destruct (Z.eqb_spec ((p - 1) mod 47) 0), (Z.eqb_spec (p mod 47) 1);
    try reflexivity; exfalso; Z.div_mod_to_equations; lia.
Qed.

Lemma count_if_cons (f : Z -> bool) (x : Z) (l : list Z) :
  count_if f (x :: l) = (if f x then 1 else 0) + count_if f l.
Proof.
  unfold count_if. cbn [filter]. destruct (f x); cbn [length]; lia.
Qed.

Lemma for_in_count (f : Z -> bool) (body : Z -> Z -> result Z) (xs : list Z) :
  (forall n c, In n xs -> body n c = Ok (if f n then c + 1 else c)) ->
  forall c, for_in xs body c = Ok (c + count_if f xs).
Proof.
  induction xs as [|x xs IH]; intros Hb c.
  - cbn. unfold count_if. cbn. f_equal. lia.
  - cbn [for_in]. rewrite Hb by (left; reflexivity). cbn [bind].
    rewrite IH by (intros n c' Hn; apply Hb; right; exact Hn).
    rewrite count_if_cons. f_equal. destruct (f x); lia.
Qed.

Lemma brute_count_body (p n c : Z) :
  p <> 0 ->
  (a <- pow3 n 47 p ;;
   m <- py_mod (n - 1) p ;;
   b <- pow3 m 47 p ;;
   d <- py_mod (a - b) p ;;
   Ok (if d =? 0 then c + 1 else c))
  = Ok (if (n ^ 47 - (n - 1) ^ 47) mod p =? 0 then c + 1 else c).
Proof.
  intros Hp. rewrite pow3_nonneg by lia. cbn [bind].
  unfold py_mod. destruct (Z.eqb_spec p 0) as [?|_]; [contradiction|]. cbn [bind].
  rewrite pow3_nonneg by lia. cbn [bind].
  rewrite Z.mod_pow_l, <- Zminus_mod. reflexivity.
Qed.

(** The count of [brute_count] is the number of roots of Q modulo [p]. *)
Lemma brute_count_roots (p : Z) :
  p <> 0 ->
  brute_count p
  = Ok (count_if (fun n => (n ^ 47 - (n - 1) ^ 47) mod p =? 0) (range 0 p)).
Proof.
  intros Hp. unfold brute_count.
  pose proof
    (for_in_count (fun n => (n ^ 47 - (n - 1) ^ 47) mod p =? 0)
       (fun n count =>
          a <- pow3 n 47 p ;;
          m <- py_mod (n - 1) p ;;
          b <- pow3 m 47 p ;;
          d <- py_mod (a - b) p ;;
          Ok (if d =? 0 then count + 1 else count))
       (range 0 p) (fun n c _ => brute_count_body p n c Hp) 0) as H.
  rewrite Z.add_0_l in H. exact H.
Qed.

Lemma omega_agrees_below_300 : forallb omega_agrees (primes_of 300) = true.
Proof. vm_compute. reflexivity. Qed.

(** C4.  For every prime p < 300, omega_Q(p) is the number of n in [0, p)
    with (n^47 - (n-1)^47) mod p = 0, as [brute_count] finds it; omega_Q is
    0 at 47, 46 when p = 1 (mod 47) and 0 otherwise; so
    [verify_omega_computationally 300] returns True. *)
Theorem C4_omega_brute_force (p : Z) :
  Z.prime p -> p < 300 ->
  brute_count p = Ok (omega_Q p)
  /\ omega_Q p
     = count_if (fun n => (n ^ 47 - (n - 1) ^ 47) mod p =? 0) (range 0 p)
  /\ omega_Q p = (if p =? 47 then 0 else if p mod 47 =? 1 then 46 else 0)
  /\ value_of (verify_omega_computationally 300) = Ok true.
Proof.
  intros Hp Hlt.
  enough (Hb : brute_count p = Ok (omega_Q p)).
  { split; [exact Hb|]. split; [|split; [apply omega_Q_cases | vm_compute; reflexivity]].
    pose proof (Z.prime_ge_2 p Hp).
    pose proof (brute_count_roots p ltac:(lia)) as Hr.
    rewrite Hb in Hr. exact (Ok_inj _ _ Hr). }
  destruct (sieve_primes_of 300 ltac:(lia)) as (_ & _ & Hin).
  assert (Hle : p <= 300) by lia.
  pose proof (proj2 (Hin p) (conj Hp Hle)) as Hmem.
  pose proof omega_agrees_below_300 as H.
  rewrite forallb_forall in H. specialize (H p Hmem).
  unfold omega_agrees in H.
  destruct (brute_count p) as [b|e]; [|discriminate].
  apply Z.eqb_eq in H. congruence.
Qed.

Lemma prime_283 : Z.prime 283.
Proof.
  destruct (sieve_primes_of 300 ltac:(lia)) as (_ & _ & Hin).
  assert (Hmem : In 283 (primes_of 300)) by (vm_compute; tauto).
  exact (proj1 (proj1 (Hin 283) Hmem)).
Qed.

Lemma C4_omega_brute_force_witness :
  Z.prime 283 /\ 283 < 300
  /\ brute_count 283 = Ok (omega_Q 283)
  /\ omega_Q 283
     = count_if (fun n => (n ^ 47 - (n - 1) ^ 47) mod 283 =? 0) (range 0 283)
  /\ omega_Q 283 = (if 283 =? 47 then 0 else if 283 mod 47 =? 1 then 46 else 0)
  /\ value_of (verify_omega_computationally 300) = Ok true.
Proof.
  split; [exact prime_283|]. split; [lia|].
  exact (C4_omega_brute_force 283 prime_283 ltac:(lia)).
Defined.

(** ** The singular-series accumulator *)

Lemma count_if_ext (f g : Z -> bool) (l : list Z) :
  (forall x, f x = g x) -> count_if f l = count_if g l.
Proof.
  intros H. unfold count_if. rewrite (filter_ext f g H). reflexivity.
Qed.

Lemma count_if_split (f g h : Z -> bool) (l : list Z) :
  (forall x, f x = g x || h x) -> (forall x, g x && h x = false) ->
  count_if f l = count_if g l + count_if h l.
Proof.
  intros Hf Hd. induction l as [|x l IH]; [reflexivity|].
  rewrite !count_if_cons, IH, Hf. specialize (Hd x).
  destruct (g x), (h x); cbn [orb andb] in *; try discriminate; lia.
Qed.

Lemma count_if_absent (x : Z) (l : list Z) :
  ~ In x l -> count_if (fun p => p =? x) l = 0.
Proof.
  induction l as [|y l IH]; intros Hn; [reflexivity|].
  rewrite count_if_cons, IH by (intros H; apply Hn; right; exact H).
  destruct (Z.eqb_spec y x) as [-> | _]; [exfalso; apply Hn; left; reflexivity | lia].
Qed.

Lemma count_if_once (x : Z) (l : list Z) :
  NoDup l -> In x l -> count_if (fun p => p =? x) l = 1.
Proof.
  induction 1 as [|y l Hy Hnd IH]; intros Hin; [destruct Hin|].
  rewrite count_if_cons. destruct (Z.eqb_spec y x) as [-> | Hne].
  - rewrite count_if_absent by exact Hy. lia.
  - destruct Hin as [E | Hin]; [contradiction|]. rewrite IH by exact Hin. lia.
Qed.

Lemma ptype_of_cases (p : Z) :
  ptype_of (omega_Q p) p
  = (if p =? 47 then ramified else if p mod 47 =? 1 then SPLIT else shield).
Proof.
  unfold ptype_of. rewrite omega_Q_cases.
  destruct (Z.eqb_spec p 47) as [-> | Hne]; [reflexivity|].
  destruct (p mod 47 =? 1); reflexivity.
Qed.

Lemma classified_by_omega (p : Z) :
  classified SPLIT p = negb (omega_Q p =? 0)
  /\ classified ramified p = (p =? 47)
  /\ classified shield p = (omega_Q p =? 0) && negb (p =? 47).
Proof.
  unfold classified. rewrite ptype_of_cases, omega_Q_cases.
  destruct (p =? 47); [repeat split|].
  destruct (p mod 47 =? 1); repeat split.
Qed.

Lemma accumulate_counts (p_max : Z) (verbose : bool) (l : list Z) :
  forall st rows,
    n_shielding (fst (fold_left (accumulate p_max verbose) l (st, rows)))
    = n_shielding st + count_if (fun p => omega_Q p =? 0) l
    /\ n_splitting (fst (fold_left (accumulate p_max verbose) l (st, rows)))
       = n_splitting st + count_if (fun p => negb (omega_Q p =? 0)) l.
Proof.
  induction l as [|p l IH]; intros st rows.
  - cbn. unfold count_if. cbn. lia.
  - cbn [fold_left]. rewrite !count_if_cons.
    destruct (accumulate p_max verbose (st, rows) p) as [st' rows'] eqn:E.
    destruct (IH st' rows') as [-> ->].
    unfold accumulate in E. cbv beta.
    destruct (omega_Q p =? 0); inversion E; subst;
      cbn [n_shielding n_splitting negb]; lia.
Qed.

Lemma prime_47 : Z.prime 47.
Proof.
  destruct (sieve_primes_of 47 ltac:(lia)) as (_ & _ & Hin).
  assert (Hmem : In 47 (primes_of 47)) by (vm_compute; tauto).
  exact (proj1 (proj1 (Hin 47) Hmem)).
Qed.

(** C5 (as the code has it).  After the primes of the sieve up to
    p_max >= 47 are folded in, the splitting count is the number of primes
    p <= p_max of type SPLIT (p = 1 mod 47), and the shielding count is the
    number of primes with omega_Q = 0: those of type shield and the ramified
    prime 47, one more than the number of type shield.  Every prime has one
    type, fixed by p mod 47; over the sieve up to 300 the row of 283 is SPLIT
    with omega_Q = 46 and the row of 47 is ramified with omega_Q = 0. *)
Theorem C5_accumulator_counts (p_max : Z) (verbose : bool) :
  47 <= p_max ->
  (exists primes st rows,
      sieve_primes p_max = Ok primes
      /\ compute_CQ_run p_max verbose = Ok (st, rows)
      /\ NoDup primes
      /\ (forall p, In p primes <-> Z.prime p /\ p <= p_max)
      /\ n_splitting st = count_if (classified SPLIT) primes
      /\ n_shielding st = count_if (fun p => omega_Q p =? 0) primes
      /\ n_shielding st = count_if (classified shield) primes + 1
      /\ count_if (classified ramified) primes = 1)
  /\ (forall p, ptype_of (omega_Q p) p
                = (if p =? 47 then ramified
                   else if p mod 47 =? 1 then SPLIT else shield))
  /\ has_row (rows_of 300) 283 46 SPLIT = true
  /\ has_row (rows_of 300) 47 0 ramified = true
  /\ omega_Q 283 = 46 /\ omega_Q 47 = 0 /\ 283 mod 47 = 1.
Proof.
  intros Hmax. split; [|split; [exact ptype_of_cases | repeat split; vm_compute; reflexivity]].
  destruct (sieve_primes_correct p_max ltac:(lia)) as (primes & E & Hs & Hin).
  pose proof (sorted_NoDup primes Hs) as Hnd.
  unfold compute_CQ_run. rewrite E. cbn [bind].
  destruct (accumulate_counts p_max verbose primes initial_state []) as [Hsh Hsp].
  destruct (fold_left (accumulate p_max verbose) primes (initial_state, []))
    as [st rows].
  cbn [fst initial_state n_shielding n_splitting] in Hsh, Hsp.
  assert (Hram : count_if (classified ramified) primes = 1).
  { rewrite (count_if_ext _ (fun p => p =? 47)) by (intros x; apply classified_by_omega).
    apply count_if_once; [exact Hnd|].
    exact (proj2 (Hin 47) (conj prime_47 Hmax)). }
  exists primes, st, rows.
  split; [reflexivity|]. split; [reflexivity|]. split; [exact Hnd|].
  split; [exact Hin|]. split; [|split; [|split]].
  - rewrite Hsp. rewrite Z.add_0_l. apply count_if_ext.
    intros x. symmetry. apply classified_by_omega.
  - lia.
  - rewrite Hsh, Z.add_0_l, <- Hram.
    apply count_if_split.
    + intros x. destruct (classified_by_omega x) as (_ & -> & ->).
      rewrite omega_Q_cases. destruct (x =? 47); [reflexivity|].
      destruct (_ =? 0); reflexivity.
    + intros x. destruct (classified_by_omega x) as (_ & -> & ->).
      destruct (x =? 47), (omega_Q x =? 0); reflexivity.
  - exact Hram.
Qed.

Lemma C5_accumulator_counts_witness :
  (exists primes st rows,
      sieve_primes 300 = Ok primes
      /\ compute_CQ_run 300 true = Ok (st, rows)
      /\ NoDup primes
      /\ (forall p, In p primes <-> Z.prime p /\ p <= 300)
      /\ n_splitting st = count_if (classified SPLIT) primes
      /\ n_shielding st = count_if (fun p => omega_Q p =? 0) primes
      /\ n_shielding st = count_if (classified shield) primes + 1
      /\ count_if (classified ramified) primes = 1)
  /\ (forall p, ptype_of (omega_Q p) p
                = (if p =? 47 then ramified
                   else if p mod 47 =? 1 then SPLIT else shield))
  /\ has_row (rows_of 300) 283 46 SPLIT = true
  /\ has_row (rows_of 300) 47 0 ramified = true
  /\ omega_Q 283 = 46 /\ omega_Q 47 = 0 /\ 283 mod 47 = 1.
Proof. exact (C5_accumulator_counts 300 true ltac:(lia)). Defined.

(** Up to 47 the loop counts 15 primes with omega_Q = 0 as shielding, while
    only 14 of them are of type shield: the ramified prime 47 is counted. *)
Lemma C5_shielding_count_includes_47 :
  exists primes st rows,
    sieve_primes 47 = Ok primes
    /\ compute_CQ_run 47 false = Ok (st, rows)
    /\ n_shielding st = 15
    /\ count_if (classified shield) primes = 14
    /\ n_shielding st <> count_if (classified shield) primes.
Proof.
  do 3 eexists. split; [vm_compute; reflexivity|].
  split; [vm_compute; reflexivity|].
  split; [reflexivity|]. split; [reflexivity|]. vm_compute. discriminate.
Qed.

(** ** Miller-Rabin against the sieve below 10000 *)

Lemma no_divisor_from_sound (fuel : nat) :
  forall d n,
    0 < d -> no_divisor_from fuel d n = true ->
    forall e, d <= e -> e * e <= n -> ~ (e | n).
Proof.
  induction fuel as [|fuel IH]; intros d n Hd H e He Hsq Hdiv; cbn [no_divisor_from] in H.
  - apply Z.ltb_lt in H. nia.
  - destruct (Z.ltb_spec n (d * d)) as [Hlt | _]; [nia|].
    destruct (Z.eqb_spec (n mod d) 0) as [|Hnz]; [discriminate|].
    destruct (Z.eq_dec e d) as [-> | Hne].
    + apply Hnz. apply Z.mod_divide; [lia | exact Hdiv].
    + apply (IH (d + 1) n ltac:(lia) H e); [lia | exact Hsq | exact Hdiv].
Qed.

Lemma trial_prime_sound (n : Z) : trial_prime n = true -> Z.prime n.
Proof.
  unfold trial_prime. intros H. apply andb_prop in H. destruct H as [H2 Hnd].
  apply Z.leb_le in H2.
  pose proof (no_divisor_from_sound _ 2 n ltac:(lia) Hnd) as Hno.
  split; [lia|]. intros d Hd [q Hq].
  assert (Hq2 : 1 < q < n) by nia.
  destruct (Z_le_gt_dec d q) as [Hle | Hgt].
  - apply (Hno d); [lia | nia | exists q; exact Hq].
  - apply (Hno q); [lia | nia | exists d; lia].
Qed.

Lemma small_witness_check_sound (bound n : Z) :
  small_witness_check bound = true ->
  3 < n < bound -> n mod 2 = 1 -> ~ Z.prime n ->
  passes_round n 2 = false \/ passes_round n 3 = false.
Proof.
  intros H Hn Hodd Hnp. unfold small_witness_check in H.
  rewrite forallb_forall in H.
  assert (Hr : In n (range 4 bound)) by (rewrite range_In; lia).
  specialize (H n Hr). cbv beta in H.
  rewrite Hodd in H. change (1 =? 0) with false in H. cbn [orb] in H.
  destruct (trial_prime n) eqn:Htp.
  - exfalso. apply Hnp, trial_prime_sound, Htp.
  - cbn [orb] in H.
    destruct (passes_round n 2); [|left; reflexivity].
    destruct (passes_round n 3); [discriminate | right; reflexivity].
Qed.

Lemma composites_below_10000 : small_witness_check 10000 = true.
Proof. vm_compute. reflexivity. Qed.

Lemma small_witness_below_10000 (n : Z) :
  3 < n < 10000 -> n mod 2 = 1 -> ~ Z.prime n ->
  passes_round n 2 = false \/ passes_round n 3 = false.
Proof.
  intros Hn Hodd Hnp.
  exact (small_witness_check_sound 10000 n composites_below_10000 Hn Hodd Hnp).
Qed.

Lemma forallb_const {A : Type} (b : bool) (l : list A) :
  l <> [] -> forallb (fun _ => b) l = b.
Proof.
  induction l as [|x l IH]; intros Hne; [contradiction|].
  cbn [forallb]. destruct l as [|y l'].
  - apply andb_true_r.
  - rewrite IH by discriminate. apply andb_diag.
Qed.

Lemma miller_rabin_constant_draw (n k a : Z) :
  3 < n -> n mod 2 <> 0 -> 0 <= a < n - 3 -> 0 < k ->
  value_of (is_prime_miller_rabin n k (fun _ => a)) = Ok (passes_round n (2 + a)).
Proof.
  intros Hn Hodd Ha Hk.
  rewrite miller_rabin_outcome by assumption. f_equal.
  unfold nth_draw. rewrite Z.mod_small by lia.
  destruct (Z.to_nat k) as [|k'] eqn:E; [lia|].
  apply forallb_const. discriminate.
Qed.

(** C7 (as the code has it).  For n < 10000 and 25 rounds the tester
    returns True for every prime n, on every run of the generator; for an
    odd composite n > 3 the answer is the conjunction of the 25 trials, so it
    is False exactly when one of the draws is a witness, and 2 or 3 is always
    one: some runs return False, none is bound to.  The primes below 10000
    are the entries of the sieve.  For every n and round count: n < 2 gives
    False, 2 and 3 give True, an even n > 3 gives False. *)
Theorem C7_below_10000 (n k : Z) (g : rng) :
  (n < 10000 ->
     (Z.prime n -> value_of (is_prime_miller_rabin n 25 g) = Ok true)
     /\ (3 < n -> n mod 2 = 1 -> ~ Z.prime n ->
           value_of (is_prime_miller_rabin n 25 g)
           = Ok (forallb (fun i => passes_round n (nth_draw n g i)) (seq 0 25))
           /\ (passes_round n 2 = false \/ passes_round n 3 = false)
           /\ (value_of (is_prime_miller_rabin n 25 (fun _ => 0)) = Ok false
               \/ value_of (is_prime_miller_rabin n 25 (fun _ => 1)) = Ok false))
     /\ (In n (primes_of 10000) <-> Z.prime n))
  /\ (n < 2 -> is_prime_miller_rabin n k g = Ok (false, g))
  /\ (n = 2 \/ n = 3 -> is_prime_miller_rabin n k g = Ok (true, g))
  /\ (3 < n -> n mod 2 = 0 -> is_prime_miller_rabin n k g = Ok (false, g)).
Proof.
  split; [|apply miller_rabin_trivial].
  intros Hlt. split; [apply miller_rabin_prime|]. split.
  - intros Hn Hodd Hnp.
    pose proof (small_witness_below_10000 n ltac:(lia) Hodd Hnp) as Hw.
    split; [apply (miller_rabin_outcome n 25 g); lia|]. split; [exact Hw|].
    destruct Hw as [Hw | Hw]; [left | right].
    + rewrite (miller_rabin_constant_draw n 25 0) by lia.
      change (2 + 0) with 2. rewrite Hw. reflexivity.
    + assert (n <> 4) by (intros ->; discriminate).
      rewrite (miller_rabin_constant_draw n 25 1) by lia.
      change (2 + 1) with 3. rewrite Hw. reflexivity.
  - destruct (sieve_primes_of 10000 ltac:(lia)) as (_ & _ & Hin).
    split.
    + intros Hmem. exact (proj1 (proj1 (Hin n) Hmem)).
    + intros Hp. assert (Hle : n <= 10000) by lia.
      exact (proj2 (Hin n) (conj Hp Hle)).
Qed.

Lemma not_prime_9 : ~ Z.prime 9.
Proof.
  intros [_ H]. apply (H 3); [lia | exists 3; reflexivity].
Qed.

Lemma C7_below_10000_witness :
  (Z.prime 7 /\ value_of (is_prime_miller_rabin 7 25 (fun _ => 0)) = Ok true)
  /\ (~ Z.prime 9
      /\ value_of (is_prime_miller_rabin 9 25 (fun _ => 0))
         = Ok (forallb (fun i => passes_round 9 (nth_draw 9 (fun _ => 0) i)) (seq 0 25))
      /\ (passes_round 9 2 = false \/ passes_round 9 3 = false)
      /\ (value_of (is_prime_miller_rabin 9 25 (fun _ => 0)) = Ok false
          \/ value_of (is_prime_miller_rabin 9 25 (fun _ => 1)) = Ok false))
  /\ is_prime_miller_rabin 1 25 (fun _ => 0) = Ok (false, fun _ => 0)
  /\ is_prime_miller_rabin 2 25 (fun _ => 0) = Ok (true, fun _ => 0)
  /\ is_prime_miller_rabin 10 25 (fun _ => 0) = Ok (false, fun _ => 0).
Proof.
  split; [|split; [|split; [|split]]].
  - split; [exact prime_7|].
    exact (proj1 (proj1 (C7_below_10000 7 25 (fun _ => 0)) ltac:(lia)) prime_7).
  - split; [exact not_prime_9|].
    exact (proj1 (proj2 (proj1 (C7_below_10000 9 25 (fun _ => 0)) ltac:(lia)))
             ltac:(lia) eq_refl not_prime_9).
  - exact (proj1 (proj2 (C7_below_10000 1 25 (fun _ => 0))) ltac:(lia)).
  - exact (proj1 (proj2 (proj2 (C7_below_10000 2 25 (fun _ => 0))))
             (or_introl eq_refl)).
  - exact (proj2 (proj2 (proj2 (C7_below_10000 10 25 (fun _ => 0))))
             ltac:(lia) eq_refl).
Defined.

(** 25 = 5 * 5 is below 10000, and 7 is a strong liar for it: a generator
    whose every draw is 7 makes all 25 rounds pass, and the tester returns
    True. *)
Lemma C7_strong_liar_25 :
  25 < 10000 /\ ~ Z.prime 25
  /\ nth_draw 25 (fun _ => 5) 0 = 7
  /\ value_of (is_prime_miller_rabin 25 25 (fun _ => 5)) = Ok true.
Proof.
  split; [lia|]. split; [|split; reflexivity].
  intros [_ H]. apply (H 5); [lia | exists 5; reflexivity].
Qed.

(** * Further properties of the scripts *)

(** ** The polynomial *)





(** X3.  The consequence the docstring of [verify_exclusion_theorem] draws:
    Q(n) + 2 is a multiple of 3, so Q(n) and Q(n) + 2 are never both prime. *)
Theorem Q_no_twin_primes (n : Z) :
  (Q n + 2) mod 3 = 0 /\ ~ (Z.prime (Q n) /\ Z.prime (Q n + 2)).
Proof.
  assert (H3 : (Q n + 2) mod 3 = 0).
  { rewrite Zplus_mod, Q_mod_3. reflexivity. }
  split; [exact H3|]. intros [Hq [_ Hq2]].
  pose proof (Z.prime_ge_2 _ Hq) as Hge.
  apply (Hq2 3); [lia|]. apply Z.mod_divide; [lia | exact H3].
Qed.

(** ** What [verify_exclusion_theorem] prints *)




(** ** The trials of the primality tester *)

Lemma halve_while_even_zero (fuel : nat) (r : Z) :
  halve_while_even fuel r 0 = Raise FuelExhausted.
Proof.
  revert r. induction fuel as [|fuel IH]; intros r; [reflexivity|].
  cbn [halve_while_even]. change (0 mod 2 =? 0) with true.
  change (0 / 2) with 0. apply IH.
Qed.

(** X5.  The halving loop writes a positive d0 as an odd number times a
    power of two: from the counter r0 it stops at (r, d) with d odd and
    d0 = d * 2^(r - r0), as soon as the fuel exceeds log2 d0.  On d0 = 0 the
    loop never stops, whatever the fuel. *)
Theorem halving_loop_decomposition (fuel : nat) (r0 d0 : Z) :
  (0 < d0 -> Z.log2 d0 < Z.of_nat fuel ->
   exists r d,
     halve_while_even fuel r0 d0 = Ok (r, d)
     /\ r0 <= r /\ 0 < d /\ d mod 2 = 1 /\ d0 = d * 2 ^ (r - r0))
  /\ halve_while_even fuel r0 0 = Raise FuelExhausted.
Proof.
  split; [|apply halve_while_even_zero].
  intros Hd Hf.
  destruct (halve_while_even_spec fuel r0 d0 Hd Hf)
    as (r & d & E & H1 & H2 & H3 & H4 & _).
  exists r, d. auto.
Qed.

Lemma halving_loop_decomposition_witness :
  (exists r d,
     halve_while_even 5 0 24 = Ok (r, d)
     /\ 0 <= r /\ 0 < d /\ d mod 2 = 1 /\ 24 = d * 2 ^ (r - 0))
  /\ halve_while_even 5 0 0 = Raise FuelExhausted.
Proof.
  split.
  - exact (proj1 (halving_loop_decomposition 5 0 24) ltac:(lia) ltac:(cbn; lia)).
  - exact (proj2 (halving_loop_decomposition 5 0 0)).
Defined.

Lemma pow_square_shift (x n j : Z) :
  0 <= j -> (x * x mod n) ^ (2 ^ j) mod n = x ^ (2 ^ (j + 1)) mod n.
Proof.
  intros Hj. rewrite Z.mod_pow_l, <- Z.pow_2_r, <- Z.pow_mul_r by lia.
  rewrite Z.pow_add_r, Z.pow_1_r by lia. f_equal. f_equal. lia.
Qed.

Lemma square_loop_spec (n : Z) :
  0 < n ->
  forall count x,
    exists b,
      square_loop count x n = Ok b
      /\ (b = true <->
          exists j, 1 <= j <= Z.of_nat count /\ x ^ (2 ^ j) mod n = n - 1).
Proof.
  intros Hn. induction count as [|count IH]; intros x.
  - exists false. split; [reflexivity|]. split; [discriminate|].
    intros (j & Hj & _). cbn in Hj. lia.
  - cbn [square_loop]. rewrite pow3_square by exact Hn. cbn [bind].
    destruct (Z.eqb_spec (x * x mod n) (n - 1)) as [E | E].
    + exists true. split; [reflexivity|]. split; [|reflexivity].
      intros _. exists 1. split; [lia|].
      change (2 ^ 1) with 2. rewrite Z.pow_2_r. exact E.
    + destruct (IH (x * x mod n)) as (b & -> & Hb).
      exists b. split; [reflexivity|]. rewrite Hb. split.
      * intros (j & Hj & Hp). exists (j + 1). split; [lia|].
        rewrite <- pow_square_shift by lia. exact Hp.
      * intros (j & Hj & Hp).
        destruct (Z.eq_dec j 1) as [-> | Hne].
        { exfalso. apply E. change (2 ^ 1) with 2 in Hp.
          rewrite Z.pow_2_r in Hp. exact Hp. }
        exists (j - 1). split; [lia|].
        rewrite pow_square_shift by lia.
        replace (j - 1 + 1) with j by lia. exact Hp.
Qed.

Lemma round_passes_spec (n r d a : Z) :
  0 < n -> 0 <= d -> 1 <= r ->
  (round_passes n r d a = true <->
   a ^ d mod n = 1
   \/ exists j, 0 <= j < r /\ a ^ (d * 2 ^ j) mod n = n - 1).
Proof.
  intros Hn Hd Hr. unfold round_passes, witness_round.
  rewrite pow3_nonneg by lia. cbn [bind].
  destruct (Z.eqb_spec (a ^ d mod n) 1) as [E1 | E1].
  { cbn [orb]. split; [intros _; left; exact E1 | reflexivity]. }
  destruct (Z.eqb_spec (a ^ d mod n) (n - 1)) as [E2 | E2].
  { cbn [orb]. split; [|reflexivity]. intros _. right. exists 0.
    split; [lia|]. rewrite Z.pow_0_r, Z.mul_1_r. exact E2. }
  cbn [orb].
  destruct (square_loop_spec n Hn (Z.to_nat (r - 1)) (a ^ d mod n)) as (b & -> & Hb).
  rewrite Hb. split.
  - intros (j & Hj & Hp). right. exists j. split; [lia|].
    rewrite Z.mod_pow_l, <- Z.pow_mul_r in Hp by lia. exact Hp.
  - intros [H1 | (j & Hj & Hp)]; [contradiction|].
    destruct (Z.eq_dec j 0) as [-> | Hne].
    { exfalso. apply E2. rewrite Z.pow_0_r, Z.mul_1_r in Hp. exact Hp. }
    exists j. split; [lia|].
    rewrite Z.mod_pow_l, <- Z.pow_mul_r by lia. exact Hp.
Qed.

(** X6.  One trial computes the strong-probable-prime condition: with
    n - 1 = d * 2^r in mind (r >= 1), the trial with the base a passes exactly
    when a^d = 1 (mod n) or a^(d * 2^j) = n - 1 (mod n) for some 0 <= j < r. *)
Theorem trial_is_strong_probable_prime_test (n r d a : Z) :
  0 < n -> 0 <= d -> 1 <= r ->
  (witness_round n r d a = Ok true <->
   a ^ d mod n = 1
   \/ exists j, 0 <= j < r /\ a ^ (d * 2 ^ j) mod n = n - 1).
Proof.
  intros Hn Hd Hr. rewrite <- (round_passes_spec n r d a Hn Hd Hr).
  unfold round_passes.
  destruct (witness_round_total n r d a Hn Hd) as (b & ->).
  split; [intros H; injection H as ->; reflexivity | intros ->; reflexivity].
Qed.

Lemma trial_is_strong_probable_prime_test_witness :
  witness_round 25 3 3 7 = Ok true <->
  7 ^ 3 mod 25 = 1
  \/ exists j, 0 <= j < 3 /\ 7 ^ (3 * 2 ^ j) mod 25 = 25 - 1.
Proof.
  exact (trial_is_strong_probable_prime_test 25 3 3 7
           ltac:(lia) ltac:(lia) ltac:(lia)).
Defined.

Lemma pred_square_mod (n : Z) : 1 < n -> (n - 1) * (n - 1) mod n = 1.
Proof.
  intros Hn. replace ((n - 1) * (n - 1)) with (1 + (n - 2) * n) by lia.
  rewrite Z.mod_add by lia. apply Z.mod_small. lia.
Qed.

Lemma pow_one_mod (x n e : Z) :
  1 < n -> 0 <= e -> x mod n = 1 -> x ^ e mod n = 1.
Proof.
  intros Hn He Hx. rewrite <- Z.mod_pow_l, Hx, Z.pow_1_l by lia.
  apply Z.mod_small. lia.
Qed.

(** X7.  A base that passes a trial of [is_prime_miller_rabin n] (n odd,
    above 3) satisfies Fermat's congruence a^(n-1) = 1 (mod n): a trial can
    only be passed by a Fermat liar or for a prime. *)
Theorem passing_trial_satisfies_fermat (n a : Z) :
  3 < n -> n mod 2 = 1 -> passes_round n a = true -> a ^ (n - 1) mod n = 1.
Proof.
  intros Hn Hodd Hpass. unfold passes_round in Hpass.
  destruct (halve_n_minus_1 n Hn ltac:(lia)) as (r & d & E & Hr & Hd & _ & Heq).
  rewrite E in Hpass.
  apply (round_passes_spec n r d a ltac:(lia) ltac:(lia) Hr) in Hpass.
  rewrite Heq. destruct Hpass as [H1 | (j & Hj & Hp)].
  - rewrite Z.pow_mul_r by lia. apply pow_one_mod; [lia | lia | exact H1].
  - replace (d * 2 ^ r) with (d * 2 ^ j * 2 * 2 ^ (r - j - 1)).
    2:{ replace r with (j + 1 + (r - j - 1)) at 2 by lia.
        rewrite !Z.pow_add_r, Z.pow_1_r by lia. lia. }
    rewrite Z.pow_mul_r by lia. apply pow_one_mod; [lia | lia |].
    rewrite Z.pow_mul_r, Z.pow_2_r by lia.
    rewrite Z.mul_mod, Hp by lia. apply pred_square_mod. lia.
Qed.


Lemma passing_trial_satisfies_fermat_witness :
  passes_round 25 7 = true /\ 7 ^ (25 - 1) mod 25 = 1.
Proof.
  split; [reflexivity|].
  exact (passing_trial_satisfies_fermat 25 7 ltac:(lia) eq_refl eq_refl).
Defined.

(** ** Runs of the primality tester *)

Lemma find_map {A B : Type} (f : B -> bool) (h : A -> B) (l : list A) :
  find f (map h l) = option_map h (find (fun x => f (h x)) l).
Proof.
  induction l as [|x l IH]; cbn; [reflexivity|].
  destruct (f (h x)); [reflexivity | exact IH].
Qed.

Lemma witness_rounds_run (n r d : Z) :
  3 < n -> 0 <= d ->
  forall k g,
    witness_rounds k n r d g
    = Ok (match find (fun i => negb (round_passes n r d (nth_draw n g i))) (seq 0 k) with
          | None => (true, drop_draws k g)
          | Some i => (false, drop_draws (S i) g)
          end).
Proof.
  intros Hn Hd. induction k as [|k IH]; intros g.
  - reflexivity.
  - cbn [witness_rounds]. unfold randrange.
    destruct (Z.leb_spec (n - 1) 2) as [?|_]; [lia|]. cbn [bind].
    change (2 + g 0%nat mod (n - 1 - 2)) with (nth_draw n g 0).
    cbn [seq find]. unfold round_passes at 1.
    destruct (witness_round_total n r d (nth_draw n g 0) ltac:(lia) Hd) as (b & ->).
    cbn [bind]. destruct b; cbn [negb]; [|reflexivity].
    rewrite IH, <- seq_shift, find_map.
    change (fun x : nat =>
              negb (round_passes n r d (nth_draw n g (S x))))
      with (fun i : nat =>
              negb (round_passes n r d (nth_draw n (fun i0 : nat => g (S i0)) i))).
    destruct (find _ (seq 0 k)); reflexivity.
Qed.

Lemma miller_rabin_run (n k : Z) (g : rng) :
  3 < n -> n mod 2 = 1 ->
  is_prime_miller_rabin n k g
  = Ok (match first_failing_trial n g (Z.to_nat k) with
        | None => (true, drop_draws (Z.to_nat k) g)
        | Some i => (false, drop_draws (S i) g)
        end).
Proof.
  intros Hn Hodd. unfold is_prime_miller_rabin, first_failing_trial, passes_round.
  destruct (Z.ltb_spec n 2) as [?|_]; [lia|].
  destruct (Z.eqb_spec n 2) as [?|_]; [lia|].
  destruct (Z.eqb_spec n 3) as [?|_]; [lia|]. cbn [orb].
  destruct (Z.eqb_spec (n mod 2) 0) as [?|_]; [lia|].
  destruct (halve_n_minus_1 n Hn ltac:(lia)) as (r & d & -> & Hr & Hd & _).
  cbn [bind]. apply witness_rounds_run; lia.
Qed.

Lemma find_seq_first (f : nat -> bool) (k : nat) :
  forall s i,
    find f (seq s k) = Some i ->
    (s <= i < s + k)%nat /\ f i = true
    /\ forall j, (s <= j < i)%nat -> f j = false.
Proof.
  induction k as [|k IH]; intros s i; cbn [seq find]; [discriminate|].
  destruct (f s) eqn:Efs.
  - intros E. injection E as <-. split; [lia|]. split; [exact Efs|]. intros; lia.
  - intros E. destruct (IH (S s) i E) as (H1 & H2 & H3).
    split; [lia|]. split; [exact H2|].
    intros j Hj. destruct (Nat.eq_dec j s) as [-> | Hne]; [exact Efs|].
    apply H3. lia.
Qed.



Lemma first_failing_trial_bound (n : Z) (g : rng) (k i : nat) :
  first_failing_trial n g k = Some i -> (i < k)%nat.
Proof.
  unfold first_failing_trial. intros E.
  destruct (find_seq_first _ _ _ _ E) as (H1 & _). lia.
Qed.

Lemma miller_rabin_total (n k : Z) (g : rng) :
  exists b c,
    is_prime_miller_rabin n k g = Ok (b, drop_draws c g)
    /\ (c <= Z.to_nat k)%nat.
Proof.
  destruct (Z_le_gt_dec n 3) as [Hs | Hb].
  - destruct (miller_rabin_trivial n k g) as (H1 & H23 & _).
    destruct (Z_lt_le_dec n 2) as [Hlt | Hge].
    + exists false, 0%nat. split; [apply H1; exact Hlt | lia].
    + exists true, 0%nat. split; [apply H23; lia | lia].
  - destruct (Z.eq_dec (n mod 2) 0) as [He | Ho].
    + destruct (miller_rabin_trivial n k g) as (_ & _ & H).
      exists false, 0%nat. split; [apply H; [lia | exact He] | lia].
    + assert (Hodd : n mod 2 = 1)
        by (pose proof (Z.mod_pos_bound n 2 ltac:(lia)); lia).
      rewrite (miller_rabin_run n k g ltac:(lia) Hodd).
      destruct (first_failing_trial n g (Z.to_nat k)) as [i|] eqn:E.
      * exists false, (S i). split; [reflexivity|].
        apply first_failing_trial_bound in E. lia.
      * exists true, (Z.to_nat k). split; [reflexivity | lia].
Qed.


(** ** The quadruplet verifiers *)

Lemma quadruplet_candidates_eq (n : Z) :
  quadruplet_candidates n = [Q n; Q (n + 1); Q (n + 2); Q (n + 3)].
Proof.
  unfold quadruplet_candidates, range.
  change (Z.to_nat (4 - 0)) with 4%nat. cbn [seq map].
  repeat f_equal; lia.
Qed.

(** Q(m) stays below the limit of [str] for |m| up to 10^91, and is beyond
    it from 10^94 on. *)
Lemma pow47_below_str_limit (m : Z) :
  0 <= m <= 10 ^ 91 -> m ^ 47 < 10 ^ max_str_digits.
Proof.
  intros H. apply Z.le_lt_trans with ((10 ^ 91) ^ 47).
  - apply Z.pow_le_mono_l. exact H.
  - rewrite <- Z.pow_mul_r by lia.
    apply Z.pow_lt_mono_r; unfold max_str_digits; lia.
Qed.

Lemma Q_reflect (n : Z) : Q (1 - n) = Q n.
Proof.
  rewrite !Q_unfold.
  replace (1 - n) with (- (n - 1)) by lia.
  replace (- (n - 1) - 1) with (- n) by lia.
  rewrite !(Z.pow_opp_odd _ 47 odd_47). lia.
Qed.

Lemma Q_below_str_limit_pos (m : Z) :
  1 <= m <= 10 ^ 91 -> Q m < 10 ^ max_str_digits.
Proof.
  intros H. rewrite Q_unfold.
  pose proof (Z.pow_nonneg (m - 1) 47 ltac:(lia)) as H1.
  pose proof (pow47_below_str_limit m ltac:(lia)) as H2.
  set (a := m ^ 47) in *. set (b := (m - 1) ^ 47) in *.
  set (L := 10 ^ max_str_digits) in *. clearbody a b L. lia.
Qed.

Lemma Q_below_str_limit (m : Z) :
  1 - 10 ^ 91 <= m <= 10 ^ 91 -> Q m < 10 ^ max_str_digits.
Proof.
  intros H. destruct (Z_le_gt_dec 1 m) as [Hm | Hm].
  - apply Q_below_str_limit_pos. lia.
  - rewrite <- Q_reflect. apply Q_below_str_limit_pos. lia.
Qed.

Lemma pow47_step (x : Z) : x ^ 47 = x * x ^ 46.
Proof. change 47 with (Z.succ 46). apply Z.pow_succ_r. lia. Qed.

Lemma Q_ge_pow46 (m : Z) : 1 <= m -> m ^ 46 <= Q m.
Proof.
  intros H. rewrite Q_unfold, (pow47_step m), (pow47_step (m - 1)).
  pose proof (Z.pow_le_mono_l (m - 1) m 46 ltac:(lia)) as H1.
  set (a := m ^ 46) in *. set (b := (m - 1) ^ 46) in *. clearbody a b.
  pose proof (Z.mul_nonneg_nonneg (m - 1) (a - b) ltac:(lia) ltac:(lia)) as H2.
  lia.
Qed.

Lemma Q_beyond_str_limit (m : Z) :
  10 ^ 94 <= m -> 10 ^ max_str_digits <= Q m.
Proof.
  intros H.
  assert (H0 : 1 <= 10 ^ 94) by (apply (Z.pow_le_mono_r 10 0 94); lia).
  apply Z.le_trans with (m ^ 46); [|apply Q_ge_pow46; lia].
  apply Z.le_trans with ((10 ^ 94) ^ 46).
  - rewrite <- Z.pow_mul_r by lia.
    apply Z.pow_le_mono_r; unfold max_str_digits; lia.
  - apply Z.pow_le_mono_l. lia.
Qed.

Lemma test_candidate_total (q : Z) (g : rng) :
  Z.abs q < 10 ^ max_str_digits ->
  exists b g',
    test_candidate q g = Ok ((b, decimal_length q), g')
    /\ (b = true \/ ~ Z.prime q).
Proof.
  intros Hq. unfold test_candidate. rewrite (len_str_ok q Hq), bind_Ok.
  destruct (miller_rabin_total q 25 g) as (b & c & E & _).
  pose proof (miller_rabin_prime q 25 g) as Hp.
  rewrite E in Hp |- *. cbn [bind value_of] in Hp |- *.
  exists b, (drop_draws c g). split; [reflexivity|].
  destruct b; [left; reflexivity | right].
  intros Hq'. specialize (Hp Hq'). discriminate.
Qed.

Lemma test_candidate_raises (q : Z) (g : rng) :
  10 ^ max_str_digits <= Z.abs q -> test_candidate q g = Raise ValueError.
Proof.
  intros Hq. unfold test_candidate. rewrite (len_str_raises q Hq). reflexivity.
Qed.

Lemma test_each_total (qs : list Z) :
  Forall (fun q => Z.abs q < 10 ^ max_str_digits) qs ->
  forall results g,
    exists verdicts g',
      test_each qs results g
      = Ok (results ++ combine verdicts (map decimal_length qs), g')
      /\ length verdicts = length qs
      /\ Forall2 (fun q v => v = true \/ ~ Z.prime q) qs verdicts.
Proof.
  induction qs as [|q qs IH]; intros Hqs results g.
  - exists [], g. cbn. rewrite app_nil_r. repeat split. constructor.
  - inversion Hqs as [|? ? Hq Hqs']; subst. cbn [test_each].
    destruct (test_candidate_total q g Hq) as (b & g1 & -> & Hb). cbn [bind].
    destruct (IH Hqs' (results ++ [(b, decimal_length q)]) g1)
      as (vs & g' & -> & Hlen & Hall).
    exists (b :: vs), g'. split; [|split].
    + cbn [map combine]. rewrite <- app_assoc. reflexivity.
    + cbn. rewrite Hlen. reflexivity.
    + constructor; assumption.
Qed.

Lemma test_each_raises (qs : list Z) :
  Exists (fun q => 10 ^ max_str_digits <= Z.abs q) qs ->
  forall results g, test_each qs results g = Raise ValueError.
Proof.
  induction qs as [|q qs IH]; intros Hex results g; [inversion Hex|].
  cbn [test_each].
  destruct (Z_lt_le_dec (Z.abs q) (10 ^ max_str_digits)) as [Hq | Hq].
  - destruct (test_candidate_total q g Hq) as (b & g1 & -> & _). cbn [bind].
    apply IH. inversion Hex as [? ? Hh | ? ? Ht]; subst; [|exact Ht].
    exfalso. set (L := 10 ^ max_str_digits) in *. lia.
  - rewrite (test_candidate_raises q g Hq). reflexivity.
Qed.

Lemma forallb_fst_combine (vs : list bool) (ds : list Z) :
  length vs = length ds ->
  forallb fst (combine vs ds) = forallb (fun v => v) vs
  /\ map snd (combine vs ds) = ds.
Proof.
  revert ds. induction vs as [|v vs IH]; intros [|d ds] Hlen; cbn in *;
    try discriminate; [split; reflexivity|].
  destruct (IH ds ltac:(lia)) as [-> ->]. split; reflexivity.
Qed.

Lemma abs_Q (m : Z) : Z.abs (Q m) = Q m.
Proof. pose proof (Q_positive m). lia. Qed.

Lemma candidates_below_str_limit (n : Z) :
  (forall i, 0 <= i < 4 -> Q (n + i) < 10 ^ max_str_digits) ->
  Forall (fun q => Z.abs q < 10 ^ max_str_digits) (quadruplet_candidates n).
Proof.
  intros H. rewrite quadruplet_candidates_eq.
  pose proof (H 0 ltac:(lia)) as H0. rewrite Z.add_0_r in H0.
  repeat constructor; rewrite abs_Q; [exact H0 | apply H; lia ..].
Qed.

Lemma verify_quadruplet_total (n : Z) (g : rng) :
  (forall i, 0 <= i < 4 -> Q (n + i) < 10 ^ max_str_digits) ->
  exists valid g',
    verify_quadruplet n g
    = Ok ((valid, [decimal_length (Q n); decimal_length (Q (n + 1));
                   decimal_length (Q (n + 2)); decimal_length (Q (n + 3))]), g')
    /\ (valid = true \/ exists i, 0 <= i < 4 /\ ~ Z.prime (Q (n + i))).
Proof.
  intros Hlim. unfold verify_quadruplet. rewrite quadruplet_loop_candidates.
  fold (quadruplet_candidates n).
  destruct (test_each_total (quadruplet_candidates n)
              (candidates_below_str_limit n Hlim) [] g)
    as (vs & g' & -> & Hlen & Hall).
  cbn [bind app].
  destruct (forallb_fst_combine vs (map decimal_length (quadruplet_candidates n)))
    as [-> ->]; [rewrite length_map; exact Hlen|].
  rewrite quadruplet_candidates_eq in Hall |- *. cbn [map].
  exists (forallb (fun v => v) vs), g'. split; [reflexivity|].
  inversion Hall as [|q0 v0 ? ? H0 Hall1]; subst.
  inversion Hall1 as [|q1 v1 ? ? H1 Hall2]; subst.
  inversion Hall2 as [|q2 v2 ? ? H2 Hall3]; subst.
  inversion Hall3 as [|q3 v3 ? ? H3 Hall4]; subst.
  inversion Hall4; subst. cbn [forallb].
  destruct H0 as [-> | H0]; [|right; exists 0; split; [lia | rewrite Z.add_0_r; exact H0]].
  destruct H1 as [-> | H1]; [|right; exists 1; split; [lia | exact H1]].
  destruct H2 as [-> | H2]; [|right; exists 2; split; [lia | exact H2]].
  destruct H3 as [-> | H3]; [|right; exists 3; split; [lia | exact H3]].
  left. reflexivity.
Qed.

Lemma verify_quadruplet_raises (n : Z) (g : rng) :
  (exists i, 0 <= i < 4 /\ 10 ^ max_str_digits <= Q (n + i)) ->
  verify_quadruplet n g = Raise ValueError.
Proof.
  intros (i & Hi & Hq). unfold verify_quadruplet.
  rewrite quadruplet_loop_candidates. fold (quadruplet_candidates n).
  rewrite test_each_raises; [reflexivity|].
  apply Exists_exists. exists (Q (n + i)). split; [|rewrite abs_Q; exact Hq].
  unfold quadruplet_candidates. apply in_map_iff. exists i.
  split; [reflexivity | apply range_In; lia].
Qed.

(** X10.  [verify_quadruplet n] takes the digit count of each of Q(n), ...,
    Q(n+3) through [str] before testing it.  When all four values have at
    most 4300 digits, it returns, for every run of the generator, the four
    digit counts in order and a verdict that is True unless one of the four
    values is not prime (a False verdict certifies a composite among them);
    when one of them has more, it raises ValueError.  The first case covers
    every n from 1 - 10^91 to 10^91 - 3, the second every n from 10^94 on. *)
Theorem verify_quadruplet_returns (n : Z) (g : rng) :
  ((forall i, 0 <= i < 4 -> Q (n + i) < 10 ^ max_str_digits) ->
   exists valid g',
     verify_quadruplet n g
     = Ok ((valid, [decimal_length (Q n); decimal_length (Q (n + 1));
                    decimal_length (Q (n + 2)); decimal_length (Q (n + 3))]), g')
     /\ (valid = true \/ exists i, 0 <= i < 4 /\ ~ Z.prime (Q (n + i))))
  /\ ((exists i, 0 <= i < 4 /\ 10 ^ max_str_digits <= Q (n + i)) ->
      verify_quadruplet n g = Raise ValueError)
  /\ (1 - 10 ^ 91 <= n <= 10 ^ 91 - 3 ->
      forall i, 0 <= i < 4 -> Q (n + i) < 10 ^ max_str_digits)
  /\ (10 ^ 94 <= n -> verify_quadruplet n g = Raise ValueError).
Proof.
  split; [apply verify_quadruplet_total|].
  split; [apply verify_quadruplet_raises|]. split.
  - intros Hn i Hi. apply Q_below_str_limit. lia.
  - intros Hn. apply verify_quadruplet_raises. exists 0. split; [lia|].
    rewrite Z.add_0_r. apply Q_beyond_str_limit, Hn.
Qed.

Lemma verify_quadruplet_returns_witness :
  (exists valid g',
     verify_quadruplet 2 (fun _ => 0)
     = Ok ((valid, [decimal_length (Q 2); decimal_length (Q (2 + 1));
                    decimal_length (Q (2 + 2)); decimal_length (Q (2 + 3))]), g')
     /\ (valid = true \/ exists i, 0 <= i < 4 /\ ~ Z.prime (Q (2 + i))))
  /\ verify_quadruplet (10 ^ 94) (fun _ => 0) = Raise ValueError.
Proof.
  split.
  - pose proof (verify_quadruplet_returns 2 (fun _ => 0)) as (H1 & _ & H3 & _).
    exact (H1 (H3 ltac:(lia))).
  - pose proof (verify_quadruplet_returns (10 ^ 94) (fun _ => 0)) as (_ & _ & _ & H4).
    exact (H4 ltac:(lia)).
Defined.

Lemma all_quadruplets_loop_total (items : list (Z * Z)) :
  Forall (fun item => 1 - 10 ^ 91 <= snd item <= 10 ^ 91 - 3) items ->
  forall all_valid out g,
    exists verdicts g',
      all_quadruplets_loop items all_valid out g
      = Ok ((all_valid && forallb (fun v => v) verdicts,
             out ++ map (fun iv => QuadRow (fst (fst iv)) (snd (fst iv))
                                    (decimal_length (Q (snd (fst iv)))) (snd iv))
                        (combine items verdicts)),
            g')
      /\ length verdicts = length items
      /\ Forall2 (fun item v =>
                    v = true
                    \/ exists i, 0 <= i < 4 /\ ~ Z.prime (Q (snd item + i)))
                 items verdicts.
Proof.
  induction items as [|[i n] items IH]; intros Hitems all_valid out g.
  - exists [], g. cbn. rewrite app_nil_r, andb_true_r. repeat split. constructor.
  - inversion Hitems as [|? ? Hn Hitems']; subst. cbn [snd] in Hn.
    cbn [all_quadruplets_loop].
    assert (Hlim : forall j, 0 <= j < 4 -> Q (n + j) < 10 ^ max_str_digits)
      by (intros j Hj; apply Q_below_str_limit; lia).
    destruct (verify_quadruplet_total n g Hlim) as (v & g1 & -> & Hv). cbn [bind].
    change (list_get [decimal_length (Q n); decimal_length (Q (n + 1));
                      decimal_length (Q (n + 2)); decimal_length (Q (n + 3))] 0)
      with (Ok (decimal_length (Q n))).
    cbn [bind].
    destruct (IH Hitems' (if negb v then false else all_valid)
                 (out ++ [QuadRow i n (decimal_length (Q n)) v]) g1)
      as (vs & g' & -> & Hlen & Hall).
    exists (v :: vs), g'. split; [|split].
    + cbn [combine map forallb fst snd]. rewrite <- app_assoc. cbn [app].
      f_equal. f_equal. f_equal.
      destruct v, all_valid; reflexivity.
    + cbn. rewrite Hlen. reflexivity.
    + constructor; [exact Hv | exact Hall].
Qed.

Lemma Forall2_map_l {A B C : Type} (f : A -> B) (P : B -> C -> Prop)
    (l : list A) (vs : list C) :
  Forall2 (fun x v => P (f x) v) l vs -> Forall2 P (map f l) vs.
Proof.
  induction 1; cbn; constructor; assumption.
Qed.

Lemma quadruplets_in_range :
  Forall (fun item : Z * Z => 1 - 10 ^ 91 <= snd item <= 10 ^ 91 - 3)
         (enumerate quadruplets 1).
Proof.
  assert (H : 3000000000 <= 10 ^ 91)
    by (apply Z.le_trans with (10 ^ 10); [lia | apply Z.pow_le_mono_r; lia]).
  set (B := 10 ^ 91) in *.
  repeat constructor; cbn [snd]; lia.
Qed.

(** X11.  [verify_all_quadruplets] never raises: for every run of the
    generator it prints the heading, a rule, one row per listed quadruplet in
    order (rank from 1, start, digit count of Q(start), verdict), a rule and
    the summary, and returns True exactly when all 14 verdicts are True; a
    verdict is True unless one of Q(start), ..., Q(start+3) is not prime. *)
Theorem verify_all_quadruplets_returns (g : rng) :
  exists verdicts g',
    verify_all_quadruplets g
    = Ok ((forallb (fun v => v) verdicts,
           [QuadHeader; QuadRule]
           ++ map (fun iv => QuadRow (fst (fst iv)) (snd (fst iv))
                               (decimal_length (Q (snd (fst iv)))) (snd iv))
                  (combine (enumerate quadruplets 1) verdicts)
           ++ [QuadRule;
               if forallb (fun v => v) verdicts then QuadAllPass else QuadSomeFail]),
          g')
    /\ length verdicts = 14%nat
    /\ map fst (enumerate quadruplets 1) = range 1 15
    /\ Forall2 (fun n v =>
                  v = true \/ exists i, 0 <= i < 4 /\ ~ Z.prime (Q (n + i)))
               quadruplets verdicts.
Proof.
  unfold verify_all_quadruplets, verify_quadruplets_over.
  destruct (all_quadruplets_loop_total (enumerate quadruplets 1)
              quadruplets_in_range true [QuadHeader; QuadRule] g)
    as (vs & g' & -> & Hlen & Hall).
  cbn [bind andb].
  exists vs, g'. split; [|split; [|split]].
  - rewrite <- app_assoc. reflexivity.
  - rewrite Hlen. reflexivity.
  - reflexivity.
  - change quadruplets with (map snd (enumerate quadruplets 1)).
    apply Forall2_map_l. exact Hall.
Qed.

(** ** The sieve and its callers on a bound below 1 *)

Lemma sieve_primes_nonpositive (n : Z) :
  n <= 0 -> - 2 ^ 63 <= n + 1 -> sieve_primes n = Raise IndexError.
Proof.
  intros Hn Hlo. unfold sieve_primes. rewrite list_repeat_ok, bind_Ok by exact Hlo.
  destruct (Z.eq_dec n 0) as [-> | Hne]; [reflexivity|].
  replace (Z.to_nat (n + 1)) with 0%nat by lia. reflexivity.
Qed.

Lemma sieve_primes_overflow (n : Z) :
  n + 1 < - 2 ^ 63 -> sieve_primes n = Raise OverflowError.
Proof.
  intros Hn. unfold sieve_primes. rewrite list_repeat_raises by exact Hn.
  reflexivity.
Qed.

(** X12.  On a bound of 0 or less the sieve returns nothing.  Down to
    n + 1 = -2^63 the table is too short for the writes to entries 0 and 1
    and the sieve raises IndexError; below, the length n + 1 of the table no
    longer fits an index and building it raises OverflowError.  Both callers,
    [compute_CQ] and [verify_omega_computationally], raise the same
    exception: no product and no verdict is returned. *)
Theorem nonpositive_bound_raises (n : Z) (verbose : bool) :
  n <= 0 ->
  (- 2 ^ 63 <= n + 1 ->
   sieve_primes n = Raise IndexError
   /\ compute_CQ n verbose = Raise IndexError
   /\ verify_omega_computationally n = Raise IndexError)
  /\ (n + 1 < - 2 ^ 63 ->
      sieve_primes n = Raise OverflowError
      /\ compute_CQ n verbose = Raise OverflowError
      /\ verify_omega_computationally n = Raise OverflowError).
Proof.
  intros Hn. unfold compute_CQ, compute_CQ_run, verify_omega_computationally.
  split; intros Hlo.
  - rewrite (sieve_primes_nonpositive n Hn Hlo). repeat split.
  - rewrite (sieve_primes_overflow n Hlo). repeat split.
Qed.

Lemma nonpositive_bound_raises_witness :
  (sieve_primes (-3) = Raise IndexError
   /\ compute_CQ (-3) true = Raise IndexError
   /\ verify_omega_computationally (-3) = Raise IndexError)
  /\ (sieve_primes (- 2 ^ 64) = Raise OverflowError
      /\ compute_CQ (- 2 ^ 64) true = Raise OverflowError
      /\ verify_omega_computationally (- 2 ^ 64) = Raise OverflowError).
Proof.
  split.
  - exact (proj1 (nonpositive_bound_raises (-3) true ltac:(lia)) ltac:(lia)).
  - exact (proj2 (nonpositive_bound_raises (- 2 ^ 64) true ltac:(lia)) ltac:(lia)).
Defined.

(** ** The accumulator: counts, verbosity, printed rows *)

Lemma fold_accumulate_fst (p_max : Z) (v v' : bool) (l : list Z) :
  forall st rows rows',
    fst (fold_left (accumulate p_max v) l (st, rows))
    = fst (fold_left (accumulate p_max v') l (st, rows')).
Proof.
  induction l as [|p l IH]; intros st rows rows'; [reflexivity|].
  cbn [fold_left].
  assert (E : fst (accumulate p_max v (st, rows) p)
              = fst (accumulate p_max v' (st, rows') p)) by reflexivity.
  destruct (accumulate p_max v (st, rows) p) as [s1 r1].
  destruct (accumulate p_max v' (st, rows') p) as [s2 r2].
  cbn [fst] in E. subst s2. apply IH.
Qed.

Lemma fold_accumulate_quiet (p_max : Z) (l : list Z) :
  forall st rows, snd (fold_left (accumulate p_max false) l (st, rows)) = rows.
Proof.
  induction l as [|p l IH]; intros st rows; [reflexivity|].
  cbn [fold_left].
  assert (E : snd (accumulate p_max false (st, rows) p) = rows) by reflexivity.
  destruct (accumulate p_max false (st, rows) p) as [s1 r1].
  cbn [snd] in E. subst r1. apply IH.
Qed.

Lemma count_if_true (l : list Z) : count_if (fun _ => true) l = Z.of_nat (length l).
Proof.
  unfold count_if. induction l as [|x l IH]; cbn; [reflexivity|].
  cbn in IH. lia.
Qed.

Lemma count_if_nonneg (f : Z -> bool) (l : list Z) : 0 <= count_if f l.
Proof. unfold count_if. lia. Qed.

(** X13.  For p_max >= 1 [compute_CQ] counts every prime up to p_max once:
    the shielding and splitting counts add up to the number of primes the
    sieve returned.  The verbose flag changes only what is printed: the
    accumulator and the returned product are the same with and without it,
    and without it no row is printed. *)
Theorem accumulator_counts_every_prime (p_max : Z) (verbose : bool) :
  1 <= p_max ->
  exists primes st rows,
    sieve_primes p_max = Ok primes
    /\ compute_CQ_run p_max verbose = Ok (st, rows)
    /\ n_shielding st + n_splitting st = Z.of_nat (length primes)
    /\ 0 <= n_shielding st /\ 0 <= n_splitting st
    /\ compute_CQ_run p_max false = Ok (st, [])
    /\ compute_CQ p_max verbose = Ok (C_Q st)
    /\ compute_CQ p_max false = Ok (C_Q st).
Proof.
  intros Hmax.
  destruct (sieve_primes_correct p_max Hmax) as (primes & E & _ & _).
  unfold compute_CQ, compute_CQ_run. rewrite E. cbn [bind].
  destruct (accumulate_counts p_max verbose primes initial_state []) as [Hsh Hsp].
  pose proof (fold_accumulate_fst p_max verbose false primes initial_state [] [])
    as Hst.
  pose proof (fold_accumulate_quiet p_max primes initial_state []) as Hrows.
  destruct (fold_left (accumulate p_max verbose) primes (initial_state, []))
    as [st rows].
  destruct (fold_left (accumulate p_max false) primes (initial_state, []))
    as [st0 rows0].
  cbn [fst snd initial_state n_shielding n_splitting] in *. subst st0 rows0.
  exists primes, st, rows. cbn [bind].
  split; [reflexivity|]. split; [reflexivity|].
  split; [|split; [|split; [|repeat split]]].
  - rewrite Hsh, Hsp, <- count_if_true.
    rewrite (count_if_split (fun _ => true) (fun p => omega_Q p =? 0)
                            (fun p => negb (omega_Q p =? 0))); [lia | |];
      intros x; destruct (omega_Q x =? 0); reflexivity.
  - rewrite Hsh. pose proof (count_if_nonneg (fun p => omega_Q p =? 0) primes). lia.
  - rewrite Hsp.
    pose proof (count_if_nonneg (fun p => negb (omega_Q p =? 0)) primes). lia.
Qed.

Lemma accumulator_counts_every_prime_witness :
  exists primes st rows,
    sieve_primes 300 = Ok primes
    /\ compute_CQ_run 300 true = Ok (st, rows)
    /\ n_shielding st + n_splitting st = Z.of_nat (length primes)
    /\ 0 <= n_shielding st /\ 0 <= n_splitting st
    /\ compute_CQ_run 300 false = Ok (st, [])
    /\ compute_CQ 300 true = Ok (C_Q st)
    /\ compute_CQ 300 false = Ok (C_Q st).
Proof. exact (accumulator_counts_every_prime 300 true ltac:(lia)). Defined.

Lemma fold_accumulate_rows (p_max : Z) (l : list Z) :
  forall st rows,
    map row_p (snd (fold_left (accumulate p_max true) l (st, rows)))
    = map row_p rows ++ filter (row_printed p_max) l
    /\ (Forall (fun r => row_omega r = omega_Q (row_p r)
                         /\ row_ptype r = ptype_of (omega_Q (row_p r)) (row_p r)
                         /\ row_local_factor r
                            = local_factor (omega_Q (row_p r)) (row_p r)) rows ->
        Forall (fun r => row_omega r = omega_Q (row_p r)
                         /\ row_ptype r = ptype_of (omega_Q (row_p r)) (row_p r)
                         /\ row_local_factor r
                            = local_factor (omega_Q (row_p r)) (row_p r))
               (snd (fold_left (accumulate p_max true) l (st, rows)))).
Proof.
  induction l as [|p l IH]; intros st rows.
  - cbn. rewrite app_nil_r. auto.
  - cbn [fold_left filter].
    destruct (accumulate p_max true (st, rows) p) as [st' rows'] eqn:E.
    unfold accumulate in E. cbn [andb] in E.
    fold (row_printed p_max p) in E.
    destruct (IH st' rows') as [IH1 IH2].
    destruct (row_printed p_max p); inversion E; subst; clear E.
    + split.
      * rewrite IH1, map_app. cbn [map row_p]. rewrite <- app_assoc. reflexivity.
      * intros Hrows. apply IH2. apply Forall_app. split; [exact Hrows|].
        constructor; [|constructor]. cbn. auto.
    + split; [exact IH1 | exact IH2].
Qed.

(** X14.  A verbose [compute_CQ p_max] (p_max >= 1) prints, in increasing
    order, exactly the primes p <= p_max with p <= 53, or p among the
    milestones 283, 1000, 5000, 10000, 50000, p_max, or p < 300 and
    p = 1 (mod 47); each row carries omega_Q(p), the local factor of p and
    the type derived from them. *)
Theorem verbose_rows (p_max : Z) :
  1 <= p_max ->
  exists primes st rows,
    sieve_primes p_max = Ok primes
    /\ compute_CQ_run p_max true = Ok (st, rows)
    /\ map row_p rows = filter (row_printed p_max) primes
    /\ StronglySorted Z.lt (map row_p rows)
    /\ Forall (fun r => Z.prime (row_p r) /\ row_p r <= p_max
                        /\ row_omega r = omega_Q (row_p r)
                        /\ row_ptype r = ptype_of (omega_Q (row_p r)) (row_p r)
                        /\ row_local_factor r
                           = local_factor (omega_Q (row_p r)) (row_p r)) rows.
Proof.
  intros Hmax.
  destruct (sieve_primes_correct p_max Hmax) as (primes & E & Hs & Hin).
  unfold compute_CQ_run. rewrite E. cbn [bind].
  destruct (fold_accumulate_rows p_max primes initial_state []) as [Hp Hall].
  specialize (Hall (Forall_nil _)).
  destruct (fold_left (accumulate p_max true) primes (initial_state, []))
    as [st rows].
  cbn [snd map app] in Hp, Hall.
  exists primes, st, rows.
  split; [reflexivity|]. split; [reflexivity|]. split; [exact Hp|].
  split; [rewrite Hp; apply sorted_filter, Hs|].
  rewrite Forall_forall in Hall |- *. intros r Hr.
  assert (Hmem : In (row_p r) (filter (row_printed p_max) primes))
    by (rewrite <- Hp; apply in_map; exact Hr).
  apply filter_In in Hmem. destruct Hmem as [Hmem _].
  destruct (proj1 (Hin (row_p r)) Hmem) as [H1 H2].
  destruct (Hall r Hr) as (H3 & H4 & H5). auto.
Qed.

Lemma verbose_rows_witness :
  exists primes st rows,
    sieve_primes 60 = Ok primes
    /\ compute_CQ_run 60 true = Ok (st, rows)
    /\ map row_p rows = filter (row_printed 60) primes
    /\ StronglySorted Z.lt (map row_p rows)
    /\ Forall (fun r => Z.prime (row_p r) /\ row_p r <= 60
                        /\ row_omega r = omega_Q (row_p r)
                        /\ row_ptype r = ptype_of (omega_Q (row_p r)) (row_p r)
                        /\ row_local_factor r
                           = local_factor (omega_Q (row_p r)) (row_p r)) rows.
Proof. exact (verbose_rows 60 ltac:(lia)). Defined.

(** ** Shielding primes *)

Lemma pow_fermat_cycle (p x : Z) :
  Z.prime p -> forall k : nat, x ^ (1 + Z.of_nat k * (p - 1)) mod p = x mod p.
Proof.
  intros Hp. pose proof (Z.prime_ge_2 p Hp) as Hge.
  induction k as [|k IH].
  - cbn [Z.of_nat]. rewrite Z.mul_0_l, Z.add_0_r, Z.pow_1_r. reflexivity.
  - replace (1 + Z.of_nat (S k) * (p - 1)) with (Z.of_nat k * (p - 1) + p) by lia.
    rewrite Z.pow_add_r by nia.
    rewrite Z.mul_mod, (Z.fermat p x Hp), <- Z.mul_mod by lia.
    rewrite <- (Z.pow_1_r x) at 2. rewrite <- Z.pow_add_r by nia.
    replace (Z.of_nat k * (p - 1) + 1) with (1 + Z.of_nat k * (p - 1)) by lia.
    exact IH.
Qed.

Lemma inverse_exponent (p : Z) :
  Z.prime p -> (p - 1) mod 47 <> 0 ->
  exists f k, 0 <= f /\ 0 <= k /\ 47 * f = 1 + k * (p - 1).
Proof.
  intros Hp Hnd. pose proof (Z.prime_ge_2 p Hp) as Hge.
  assert (Hco : Z.coprime 47 (p - 1)).
  { apply Z.coprime_prime_l; [exact prime_47|].
    intros Hdiv. apply Hnd. apply Z.mod_divide; [lia | exact Hdiv]. }
  destruct (Z.Bezout_coprime _ _ Hco) as (u & v & Huv).
  pose proof (Z.div_mod u (p - 1) ltac:(lia)) as Hdm.
  pose proof (Z.mod_pos_bound u (p - 1) ltac:(lia)) as Hb.
  set (m := p - 1) in *. set (q := u / m) in *. set (r := u mod m) in *.
  assert (Heq : 47 * (r + m) = 1 + (47 - v - 47 * q) * m).
  { replace r with (u - m * q) by lia. ring_simplify.
    replace (47 * u) with (1 - v * m) by lia. ring. }
  exists (r + m), (47 - v - 47 * q).
  split; [lia|]. split; [|exact Heq].
  assert (Hpos : 0 < (47 - v - 47 * q) * m) by lia.
  destruct (Z_lt_le_dec (47 - v - 47 * q) 0) as [Hneg | Hok]; [|exact Hok].
  exfalso. assert ((47 - v - 47 * q) * m <= 0); [|lia].
  apply Z.mul_nonpos_nonneg; lia.
Qed.

Lemma pow47_injective_mod (p a b : Z) :
  Z.prime p -> (p - 1) mod 47 <> 0 ->
  a ^ 47 mod p = b ^ 47 mod p -> a mod p = b mod p.
Proof.
  intros Hp Hnd Hab.
  destruct (inverse_exponent p Hp Hnd) as (f & k & Hf & Hk & Hfk).
  pose proof (pow_fermat_cycle p a Hp (Z.to_nat k)) as Ha.
  pose proof (pow_fermat_cycle p b Hp (Z.to_nat k)) as Hb.
  rewrite Z2Nat.id, <- Hfk in Ha, Hb by exact Hk.
  rewrite Z.pow_mul_r, <- Z.mod_pow_l in Ha, Hb by lia.
  rewrite <- Ha, <- Hb, Hab. reflexivity.
Qed.

Lemma mod_eq_of_sub (a b p : Z) :
  p <> 0 -> (a - b) mod p = 0 -> a mod p = b mod p.
Proof.
  intros Hp H. replace a with (b + (a - b)) by lia.
  rewrite Zplus_mod, H, Z.add_0_r, Z.mod_mod by exact Hp. reflexivity.
Qed.


Lemma Q_not_divisible (p n : Z) :
  Z.prime p -> (p - 1) mod 47 <> 0 -> Q n mod p <> 0.
Proof.
  intros Hp Hnd HQ. pose proof (Z.prime_ge_2 p Hp) as Hge.
  assert (Hp0 : p <> 0) by lia.
  assert (Hone : 1 mod p = 1) by (apply Z.mod_small; lia).
  rewrite Q_unfold in HQ.
  pose proof (mod_eq_of_sub _ _ p Hp0 HQ) as Hpow.
  pose proof (pow47_injective_mod p n (n - 1) Hp Hnd Hpow) as Hn.
  assert (H1 : (n - (n - 1)) mod p = 0).
  { rewrite Zminus_mod, Hn, Z.sub_diag. reflexivity. }
  replace (n - (n - 1)) with 1 in H1 by ring.
  rewrite Hone in H1. discriminate.
Qed.

Lemma count_if_none (f : Z -> bool) (l : list Z) :
  (forall x, In x l -> f x = false) -> count_if f l = 0.
Proof.
  induction l as [|x l IH]; intros H; [reflexivity|].
  rewrite count_if_cons, (H x (or_introl eq_refl)), IH; [reflexivity|].
  intros y Hy. apply H. right. exact Hy.
Qed.

Lemma omega_Q_shielding (p : Z) : (p - 1) mod 47 <> 0 -> omega_Q p = 0.
Proof.
  intros Hnd. unfold omega_Q. destruct (p =? 47); [reflexivity|].
  destruct (Z.eqb_spec ((p - 1) mod 47) 0); [contradiction | reflexivity].
Qed.

Lemma brute_count_shielding (p : Z) :
  Z.prime p -> (p - 1) mod 47 <> 0 -> brute_count p = Ok 0.
Proof.
  intros Hp Hnd. pose proof (Z.prime_ge_2 p Hp) as Hge.
  rewrite brute_count_roots by lia. f_equal.
  apply count_if_none. intros n _.
  apply Z.eqb_neq. rewrite <- Q_unfold. exact (Q_not_divisible p n Hp Hnd).
Qed.

(** X15.  The docstring's theory for the primes that do not split, proved for
    every prime and not only below 300: if p is prime and p - 1 is not a
    multiple of 47 (47 itself included), no integer n has Q(n) = 0 (mod p),
    so the brute-force count is 0 and agrees with omega_Q(p) = 0. *)
Theorem shielding_primes_have_no_root (p : Z) :
  Z.prime p -> (p - 1) mod 47 <> 0 ->
  (forall n, Q n mod p <> 0)
  /\ brute_count p = Ok 0
  /\ omega_Q p = 0.
Proof.
  intros Hp Hnd. split; [intros n; exact (Q_not_divisible p n Hp Hnd)|].
  split; [exact (brute_count_shielding p Hp Hnd) | exact (omega_Q_shielding p Hnd)].
Qed.

Lemma shielding_primes_have_no_root_witness :
  (forall n, Q n mod 47 <> 0)
  /\ brute_count 47 = Ok 0
  /\ omega_Q 47 = 0.
Proof.
  exact (shielding_primes_have_no_root 47 prime_47 ltac:(discriminate)).
Defined.

Lemma small_primes_shield (p : Z) :
  Z.prime p -> p < 283 -> (p - 1) mod 47 <> 0.
Proof.
  intros Hp Hlt Hmod. pose proof (Z.prime_ge_2 p Hp) as Hge.
  destruct Hp as [_ Hnd].
  assert (Hq : p = 48 \/ p = 95 \/ p = 142 \/ p = 189 \/ p = 236)
    by (Z.div_mod_to_equations; lia).
  destruct Hq as [-> | [-> | [-> | [-> | ->]]]].
  - apply (Hnd 2); [lia | exists 24; reflexivity].
  - apply (Hnd 5); [lia | exists 19; reflexivity].
  - apply (Hnd 2); [lia | exists 71; reflexivity].
  - apply (Hnd 3); [lia | exists 63; reflexivity].
  - apply (Hnd 2); [lia | exists 118; reflexivity].
Qed.

(** X16.  283 is the first splitting prime, as the module's docstring says:
    every prime p < 283 has omega_Q(p) = 0 and divides no value Q(n), so each
    prime factor of each Q(n) is at least 283; and omega_Q(283) = 46. *)
Theorem first_splitting_prime (p n : Z) :
  Z.prime p -> p < 283 ->
  omega_Q p = 0 /\ ~ (p | Q n)
  /\ Z.prime 283 /\ omega_Q 283 = 46.
Proof.
  intros Hp Hlt. pose proof (small_primes_shield p Hp Hlt) as Hnd.
  pose proof (Z.prime_ge_2 p Hp) as Hge.
  split; [exact (omega_Q_shielding p Hnd)|]. split.
  - intros Hdiv. apply (Q_not_divisible p n Hp Hnd).
    apply Z.mod_divide; [lia | exact Hdiv].
  - split; [exact prime_283 | reflexivity].
Qed.

Lemma first_splitting_prime_witness :
  Z.prime 7 /\ 7 < 283
  /\ omega_Q 7 = 0 /\ ~ (7 | Q 10)
  /\ Z.prime 283 /\ omega_Q 283 = 46.
Proof.
  split; [exact prime_7|]. split; [lia|].
  exact (first_splitting_prime 7 10 prime_7 ltac:(lia)).
Defined.

Lemma count_if_ext_in (f g : Z -> bool) (l : list Z) :
  (forall x, In x l -> f x = g x) -> count_if f l = count_if g l.
Proof.
  intros H. unfold count_if. rewrite (filter_ext_in f g l H). reflexivity.
Qed.

Lemma fold_accumulate_no_split (p_max : Z) (verbose : bool) (l : list Z) :
  (forall p, In p l -> omega_Q p = 0) ->
  forall st rows,
    C_Q st = shielding_product st ->
    C_Q (fst (fold_left (accumulate p_max verbose) l (st, rows)))
    = shielding_product (fst (fold_left (accumulate p_max verbose) l (st, rows))).
Proof.
  induction l as [|p l IH]; intros Hall st rows Heq; [exact Heq|].
  cbn [fold_left].
  destruct (accumulate p_max verbose (st, rows) p) as [st' rows'] eqn:E.
  apply IH; [intros q Hq; apply Hall; right; exact Hq|].
  unfold accumulate in E. rewrite (Hall p (or_introl eq_refl)) in E.
  change (0 =? 0) with true in E. cbv iota in E.
  inversion E; subst. cbn [C_Q shielding_product]. rewrite Heq. reflexivity.
Qed.

(** X17.  Below the first splitting prime the two products coincide: for
    1 <= p_max < 283 [compute_CQ] counts no splitting prime, counts every
    prime up to p_max as shielding, and its full product C_Q is the very same
    double as the shielding product. *)
Theorem no_splitting_below_283 (p_max : Z) (verbose : bool) :
  1 <= p_max < 283 ->
  exists primes st rows,
    sieve_primes p_max = Ok primes
    /\ compute_CQ_run p_max verbose = Ok (st, rows)
    /\ n_splitting st = 0
    /\ n_shielding st = Z.of_nat (length primes)
    /\ C_Q st = shielding_product st.
Proof.
  intros Hmax.
  destruct (sieve_primes_correct p_max ltac:(lia)) as (primes & E & _ & Hin).
  assert (Hall : forall p, In p primes -> omega_Q p = 0).
  { intros p Hp. destruct (proj1 (Hin p) Hp) as [Hpr Hle].
    apply omega_Q_shielding, small_primes_shield; [exact Hpr | lia]. }
  unfold compute_CQ_run. rewrite E. cbn [bind].
  destruct (accumulate_counts p_max verbose primes initial_state []) as [Hsh Hsp].
  pose proof (fold_accumulate_no_split p_max verbose primes Hall initial_state []
                eq_refl) as Hprod.
  destruct (fold_left (accumulate p_max verbose) primes (initial_state, []))
    as [st rows].
  cbn [fst initial_state n_shielding n_splitting] in *.
  exists primes, st, rows.
  split; [reflexivity|]. split; [reflexivity|].
  split; [|split; [|exact Hprod]].
  - rewrite Hsp, Z.add_0_l. apply count_if_none.
    intros x Hx. rewrite (Hall x Hx). reflexivity.
  - rewrite Hsh, Z.add_0_l, <- count_if_true. apply count_if_ext_in.
    intros x Hx. rewrite (Hall x Hx). reflexivity.
Qed.

Lemma no_splitting_below_283_witness :
  exists primes st rows,
    sieve_primes 100 = Ok primes
    /\ compute_CQ_run 100 false = Ok (st, rows)
    /\ n_splitting st = 0
    /\ n_shielding st = Z.of_nat (length primes)
    /\ C_Q st = shielding_product st.
Proof. exact (no_splitting_below_283 100 false ltac:(lia)). Defined.

(** ** The brute-force check for every bound *)

Lemma omega_agrees_shielding (p : Z) :
  Z.prime p -> ((p - 1) mod 47 =? 0) = false -> omega_agrees p = true.
Proof.
  intros Hp Hs. apply Z.eqb_neq in Hs. unfold omega_agrees.
  rewrite (brute_count_shielding p Hp Hs), (omega_Q_shielding p Hs). reflexivity.
Qed.


Lemma for_in_verdict {R : Type} (check : Z -> bool)
    (body : Z -> bool * R -> result (bool * R)) (xs : list Z) :
  (forall x, In x xs ->
     forall verdict rows,
       exists rows1, body x (verdict, rows) = Ok (verdict && check x, rows1)) ->
  forall verdict rows,
    exists rows',
      for_in xs body (verdict, rows) = Ok (verdict && forallb check xs, rows').
Proof.
  induction xs as [|x xs IH]; intros Hbody verdict rows.
  - exists rows. cbn. rewrite andb_true_r. reflexivity.
  - cbn [for_in forallb].
    destruct (Hbody x (or_introl eq_refl) verdict rows) as (rows1 & ->).
    cbn [bind].
    destruct (IH (fun y Hy => Hbody y (or_intror Hy)) (verdict && check x) rows1)
      as (rows' & ->).
    exists rows'. rewrite andb_assoc. reflexivity.
Qed.

Lemma verify_omega_step (p : Z) (all_match : bool) (rows : list omega_row) :
  p <> 0 ->
  exists rows1,
    (brute <- brute_count p ;;
     let theory := omega_Q p in
     let all_match' := if negb (brute =? theory) then false else all_match in
     let rows' :=
       if (p <=? 53) || ((p - 1) mod 47 =? 0) || negb (brute =? theory)
       then rows ++ [{| orow_p := p; orow_theory := theory; orow_brute := brute;
                        orow_match := brute =? theory |}]
       else rows in
     Ok (all_match', rows'))
    = Ok (all_match && omega_agrees p, rows1).
Proof.
  intros Hp. unfold omega_agrees. rewrite (brute_count_roots p Hp). cbn [bind].
  cbv zeta. eexists. f_equal. f_equal.
  destruct (_ =? omega_Q p), all_match; reflexivity.
Qed.

Lemma forallb_filter_rest {A : Type} (f s : A -> bool) (l : list A) :
  (forall x, In x l -> s x = false -> f x = true) ->
  forallb f l = forallb f (filter s l).
Proof.
  induction l as [|x l IH]; intros H; [reflexivity|].
  cbn [forallb filter].
  rewrite IH by (intros y Hy; apply H; right; exact Hy).
  destruct (s x) eqn:Es; [reflexivity|].
  rewrite (H x (or_introl eq_refl) Es). reflexivity.
Qed.

(** X18.  For every bound p_max >= 1 the verdict of
    [verify_omega_computationally] depends on the splitting primes only: it
    is True exactly when the brute-force count is omega_Q(p) = 46 for every
    prime p <= p_max with p = 1 (mod 47), the other primes always agreeing;
    in particular it is True for every bound from 1 to 300. *)
Theorem verify_omega_verdict (p_max : Z) :
  1 <= p_max ->
  value_of (verify_omega_computationally p_max)
  = Ok (forallb omega_agrees
          (filter (fun p => (p - 1) mod 47 =? 0) (primes_of p_max)))
  /\ (p_max <= 300 -> value_of (verify_omega_computationally p_max) = Ok true).
Proof.
  intros Hmax.
  destruct (sieve_primes_of p_max Hmax) as (E & _ & Hin).
  assert (Hv : value_of (verify_omega_computationally p_max)
               = Ok (forallb omega_agrees (primes_of p_max))).
  { unfold verify_omega_computationally. rewrite E, bind_Ok. cbv beta.
    match goal with
    | |- value_of (for_in ?xs ?body _) = _ =>
        assert (Hstep : forall x, In x xs ->
                  forall verdict rows,
                    exists rows1,
                      body x (verdict, rows) = Ok (verdict && omega_agrees x, rows1))
    end.
    { intros p Hp verdict rows. apply verify_omega_step.
      pose proof (Z.prime_ge_2 p (proj1 (proj1 (Hin p) Hp))). lia. }
    destruct (for_in_verdict omega_agrees _ _ Hstep true []) as (rows' & ->).
    reflexivity. }
  split.
  - rewrite Hv. f_equal. apply forallb_filter_rest.
    intros p Hp Hs. apply omega_agrees_shielding; [|exact Hs].
    exact (proj1 (proj1 (Hin p) Hp)).
  - intros Hle. rewrite Hv. f_equal. apply forallb_forall. intros p Hp.
    destruct (proj1 (Hin p) Hp) as [Hpr Hpl].
    destruct (sieve_primes_of 300 ltac:(lia)) as (_ & _ & Hin300).
    assert (Hle300 : p <= 300) by lia.
    pose proof (proj2 (Hin300 p) (conj Hpr Hle300)) as Hmem.
    pose proof omega_agrees_below_300 as Hall.
    rewrite forallb_forall in Hall. exact (Hall p Hmem).
Qed.

Lemma verify_omega_verdict_witness :
  value_of (verify_omega_computationally 100)
  = Ok (forallb omega_agrees
          (filter (fun p => (p - 1) mod 47 =? 0) (primes_of 100)))
  /\ value_of (verify_omega_computationally 100) = Ok true.
Proof.
  split.
  - exact (proj1 (verify_omega_verdict 100 ltac:(lia))).
  - exact (proj2 (verify_omega_verdict 100 ltac:(lia)) ltac:(lia)).
Defined.
